(** * Path resolver, listing, filtering and pagination of the Magic-API CLI tools

    A shallow embedding of the pure parts of
    [cli/extract_api_paths.py], [cli/extract_class_methods.py] and
    [search_manager.py], with the properties the specification states
    about them.

    Python [str] values are modelled as [string] (sequences of bytes, the
    UTF-8 encoding of the text); Python [int] as [Z]; dictionaries with a
    fixed set of keys as records; [None] as [None]. *)

From Stdlib Require Import Ascii String List ZArith Lia Bool Arith.
From Stdlib Require Import Sorting.Sorted Sorting.Permutation.
From Equations Require Import Equations.
Import ListNotations.

Local Open Scope string_scope.
Local Open Scope list_scope.

Set Implicit Arguments.

(** ** Python string primitives used by the path functions *)

Module PyStr.

Definition slash : ascii := "/"%char.

Definition is_slash (c : ascii) : bool := Ascii.eqb c slash.

(** Python truthiness of a [str]: the empty string is falsy. *)
Definition truthy (s : string) : bool :=
  match s with
  | EmptyString => false
  | String _ _ => true
  end.

(** [s.lstrip('/')] *)
Fixpoint lstrip_slash (s : string) : string :=
  match s with
  | EmptyString => EmptyString
  | String c r => if is_slash c then lstrip_slash r else s
  end.

(** [s.rstrip('/')] *)
Fixpoint rstrip_slash (s : string) : string :=
  match s with
  | EmptyString => EmptyString
  | String c r =>
      match rstrip_slash r with
      | EmptyString => if is_slash c then EmptyString else String c EmptyString
      | r' => String c r'
      end
  end.

(** [s.strip('/')]: both ends. *)
Definition strip_slash (s : string) : string :=
  rstrip_slash (lstrip_slash s).

(** ['//' in s] *)
Fixpoint has_dslash (s : string) : bool :=
  match s with
  | EmptyString => false
  | String c r =>
      match r with
      | EmptyString => false
      | String c' _ => (is_slash c && is_slash c') || has_dslash r
      end
  end.

(** [s.replace('//', '/')]: one left-to-right pass over the
    non-overlapping occurrences. *)
Fixpoint replace_dslash (s : string) : string :=
  match s with
  | EmptyString => EmptyString
  | String c r =>
      match r with
      | EmptyString => String c EmptyString
      | String c' r' =>
          if is_slash c && is_slash c'
          then String slash (replace_dslash r')
          else String c (replace_dslash r)
      end
  end.

(** [s.startswith(p)] *)
Fixpoint startswith (s p : string) : bool :=
  match p with
  | EmptyString => true
  | String a p' =>
      match s with
      | EmptyString => false
      | String b s' => Ascii.eqb a b && startswith s' p'
      end
  end.

(** [s.startswith('/')] and [s.endswith('/')]. *)
Definition starts_slash (s : string) : bool :=
  match s with
  | EmptyString => false
  | String c _ => is_slash c
  end.

Fixpoint ends_slash (s : string) : bool :=
  match s with
  | EmptyString => false
  | String c r =>
      match r with
      | EmptyString => is_slash c
      | String _ _ => ends_slash r
      end
  end.

(** [c in s] for a single character [c]. *)
Fixpoint contains_char (c : ascii) (s : string) : bool :=
  match s with
  | EmptyString => false
  | String a r => Ascii.eqb a c || contains_char c r
  end.

End PyStr.

Import PyStr.

(** ** [extract_api_paths.py]: path normalisation *)

Definition inspect {A : Type} (a : A) : {b : A | a = b} :=
  exist (fun b => a = b) a eq_refl.

(** The loop [while '//' in path: path = path.replace('//', '/')].
    Every iteration shortens the string, which is the termination
    argument. *)
Equations? collapse_slashes (s : string) : string
  by wf (String.length s) lt :=
  collapse_slashes s with inspect (has_dslash s) := {
    | exist _ true Hd => collapse_slashes (replace_dslash s);
    | exist _ false _ => s }.
Proof.
  clear collapse_slashes. revert Hd.
  enough (H : forall t,
             (has_dslash t = true ->
              (String.length (replace_dslash t) < String.length t)%nat) /\
             (String.length (replace_dslash t) <= String.length t)%nat)
    by (intro Hd; apply H; exact Hd).
  enough (H : forall t,
             (fun u => (has_dslash u = true ->
                        (String.length (replace_dslash u) < String.length u)%nat) /\
                       (String.length (replace_dslash u) <= String.length u)%nat) t /\
             forall c,
               (fun u => (has_dslash u = true ->
                          (String.length (replace_dslash u) < String.length u)%nat) /\
                         (String.length (replace_dslash u) <= String.length u)%nat)
                 (String c t))
    by (intro t; apply H).
  induction t as [|a t [IHt IHc]].
  - cbn. repeat split; auto; discriminate.
  - split; [apply IHc|]. intro c.
    change (replace_dslash (String c (String a t)))
      with (if is_slash c && is_slash a
            then String slash (replace_dslash t)
            else String c (replace_dslash (String a t))).
    change (has_dslash (String c (String a t)))
      with ((is_slash c && is_slash a) || has_dslash (String a t)).
    destruct (IHc a) as [Hlt Hle]. destruct IHt as [_ Hle'].
    destruct (is_slash c && is_slash a); cbn [orb String.length] in *.
    + split; [intros _|]; lia.
    + split; [intro H; specialize (Hlt H)|]; lia.
Qed.

(** [clean_path], lines 56-64. *)
Definition clean_path (path : string) : string :=
  if negb (truthy path) then ""
  else
    let path := strip_slash path in
    collapse_slashes path.

(** [normalize_path], lines 117-134. *)
Definition normalize_path (path : string) : string :=
  if negb (truthy path) then ""
  else
    let path := strip_slash path in
    collapse_slashes path.

(** A path in normal form: no slash at either end, no doubled slash. *)
Definition normal (s : string) : Prop :=
  starts_slash s = false /\ ends_slash s = false /\ has_dslash s = false.

(** ** [extract_api_paths.py]: the resource tree *)

(** The dictionary under the key ['node'].  [path] and [name] are read
    with [get(key, '')], so an absent key is the empty string; [method],
    [id] and [groupId] are read with [get(key)], so an absent key is
    [None]. *)
Record NodeInfo : Type := mkNodeInfo {
  id : option string;
  path : string;
  name : string;
  method : option string;
  groupId : option string
}.

(** A tree node: [{'node': {...}, 'children': [...]}], children in
    delivery order. *)
#[local] Unset Elimination Schemes.
Inductive Node : Type :=
| Tree (node : NodeInfo) (children : list Node).
#[local] Set Elimination Schemes.

(** Truthiness of the result of [dict.get(key)] for a string field. *)
Definition truthy_opt (o : option string) : bool :=
  match o with
  | Some s => truthy s
  | None => false
  end.

(** The value of [o or ''], for reading a field that passed its test. *)
Definition or_empty (o : option string) : string :=
  match o with
  | Some s => s
  | None => ""
  end.

(** The [if current_path and parent_path: ... elif ... else] chain that
    both tree walks use to build the path of a node, before cleaning. *)
Definition join_path (parent_path current_path : string) : string :=
  if truthy current_path && truthy parent_path
  then parent_path ++ "/" ++ current_path
  else if truthy current_path then current_path
  else if truthy parent_path then parent_path
  else "".

(** One entry of the list-all output:
    ["{method} {full_path} [{current_name}]"] or ["{method} {full_path}"]. *)
Definition format_endpoint
  (method full_path current_name current_path : string) : string :=
  if truthy current_name && negb (String.eqb current_name current_path)
  then method ++ " " ++ full_path ++ " [" ++ current_name ++ "]"
  else method ++ " " ++ full_path.

(** [traverse_api_tree], lines 67-114.  The list [results] is appended
    to in place by the source; here it is threaded through the calls. *)
Fixpoint traverse_api_tree
  (n : Node) (parent_path : string) (results : list string) : list string :=
  match n with
  | Tree node_info children =>
      let current_path := path node_info in
      let current_name := name node_info in
      let full_path := clean_path (join_path parent_path current_path) in
      let results :=
        match method node_info with
        | Some m =>
            if truthy m && truthy full_path
            then results ++ [format_endpoint m full_path current_name current_path]
            else results
        | None => results
        end in
      fold_left
        (fun results child => traverse_api_tree child full_path results)
        children results
  end.

(** A dictionary appended by [find_api_by_path]. *)
Record Match : Type := mkMatch {
  match_id : string;
  match_path : string;
  match_method : string;
  match_name : string;
  match_groupId : option string
}.

(** The three-way test of lines 183-185. *)
Definition path_matches (normalized_full_path normalized_target : string) : bool :=
  String.eqb normalized_full_path normalized_target
  || startswith normalized_full_path (normalized_target ++ "/")
  || startswith normalized_target (normalized_full_path ++ "/").

(** [find_api_by_path], lines 137-200, with [results] threaded. *)
Fixpoint find_api_by_path
  (n : Node) (target_path parent_path : string) (results : list Match)
  : list Match :=
  match n with
  | Tree node_info children =>
      let current_path := path node_info in
      let current_name := name node_info in
      let full_path := clean_path (join_path parent_path current_path) in
      let normalized_target := normalize_path target_path in
      let results :=
        match method node_info, id node_info with
        | Some m, Some api_id =>
            if truthy m && truthy full_path && truthy api_id
            then
              let normalized_full_path := normalize_path full_path in
              if path_matches normalized_full_path normalized_target
              then results ++ [mkMatch api_id full_path m current_name
                                       (groupId node_info)]
              else results
            else results
        | _, _ => results
        end in
      fold_left
        (fun results child => find_api_by_path child target_path full_path results)
        children results
  end.

(** What loading the data source gave: the list under
    [data['data']['api']['children']] (absent keys read as empty), or a
    failure of the load itself. *)
Inductive LoadError : Type :=
| FileNotFoundError
| JSONDecodeError
| OtherLoadError.

Inductive Loaded : Type :=
| ApiChildren (api_children : list Node)
| LoadFailed (e : LoadError).

(** How a call ends: it returns a value, the process exits through
    [sys.exit(code)], or an exception leaves the function. *)
Inductive PyExn : Type :=
| IndexError
| ZeroDivisionError
| OverflowError
| RecursionError
| ValueError
| TypeError
| AttributeError
| KeyError.

Inductive Completion (A : Type) : Type :=
| Returned (v : A)
| SysExit (code : Z)
| Raised (e : PyExn).

Arguments Returned {A} v.
Arguments SysExit {A} code.
Arguments Raised {A} e.

(** [sorted(results)] on a list of [str]: ascending by code point, which
    on UTF-8 bytes is the byte-wise order [String.leb].  The order is
    total and antisymmetric, so every sorting algorithm returns this
    list; insertion into a sorted prefix is used here. *)
Fixpoint insert_sorted (x : string) (l : list string) : list string :=
  match l with
  | [] => [x]
  | y :: l' => if String.leb x y then x :: l else y :: insert_sorted x l'
  end.

Definition py_sorted (l : list string) : list string :=
  fold_right insert_sorted [] l.

(** The order [sorted] sorts by. *)
Definition str_le (a b : string) : Prop := String.leb a b = true.

(** The loop [for child in api_children: traverse_api_tree(child, "", results)]. *)
Definition traverse_forest (api_children : list Node) : list string :=
  fold_left (fun results child => traverse_api_tree child "" results)
            api_children [].

(** [extract_api_endpoints], lines 295-334, after the source was loaded. *)
Definition extract_api_endpoints (source : Loaded) : Completion (list string) :=
  match source with
  | ApiChildren api_children => Returned (py_sorted (traverse_forest api_children))
  | LoadFailed _ => SysExit 1
  end.

(** [find_api_id_by_path], lines 337-376, after the source was loaded. *)
Definition find_api_id_by_path
  (source : Loaded) (target_path : string) : Completion (list Match) :=
  match source with
  | ApiChildren api_children =>
      Returned
        (fold_left
           (fun results child => find_api_by_path child target_path "" results)
           api_children [])
  | LoadFailed _ => SysExit 1
  end.

(** ** The walks against a reference enumeration *)

(** Reference enumeration, following the specification's words: the
    nodes of a tree in pre-order, depth first, children in delivery
    order, each with its full path (the cleaned join of the parent's
    full path and the node's own segment). *)
Fixpoint preorder (n : Node) (parent_path : string) : list (NodeInfo * string) :=
  match n with
  | Tree node_info children =>
      let full_path := clean_path (join_path parent_path (path node_info)) in
      (node_info, full_path)
        :: flat_map (fun child => preorder child full_path) children
  end.

Definition preorder_forest (api_children : list Node) : list (NodeInfo * string) :=
  flat_map (fun child => preorder child "") api_children.

(** A node "has a method and an id": both fields are present and not empty. *)
Definition has_method_and_id (i : NodeInfo) : bool :=
  truthy_opt (method i) && truthy_opt (id i).

(** The matching policy as the specification words it. *)
Definition spec_selects (target_path : string) (e : NodeInfo * string) : bool :=
  has_method_and_id (fst e)
  && path_matches (normalize_path (snd e)) (normalize_path target_path).

(** The matching policy with the guard on the full path that the code has. *)
Definition code_selects (target_path : string) (e : NodeInfo * string) : bool :=
  has_method_and_id (fst e) && truthy (snd e)
  && path_matches (normalize_path (snd e)) (normalize_path target_path).

(** The record returned for a selected node. *)
Definition to_match (e : NodeInfo * string) : Match :=
  mkMatch (or_empty (id (fst e))) (snd e) (or_empty (method (fst e)))
          (name (fst e)) (groupId (fst e)).

(** The nodes [traverse_api_tree] lists, and the line printed for one. *)
Definition listed (e : NodeInfo * string) : bool :=
  truthy_opt (method (fst e)) && truthy (snd e).

Definition to_line (e : NodeInfo * string) : string :=
  format_endpoint (or_empty (method (fst e))) (snd e)
                  (name (fst e)) (path (fst e)).

(** ** [extract_api_paths.py]: [filter_endpoints] *)

(** [ep.split(' ', 1)[1]]: the text after the first space; [IndexError]
    when [ep] has no space. *)
Fixpoint after_first_space (ep : string) : option string :=
  match ep with
  | EmptyString => None
  | String c r => if Ascii.eqb c " "%char then Some r else after_first_space r
  end.

Definition split_1 (ep : string) : Completion string :=
  match after_first_space ep with
  | Some rest => Returned rest
  | None => Raised IndexError
  end.

(** A list comprehension [[ep for ep in l if cond(ep)]] whose condition
    can raise: the first exception ends the comprehension. *)
Fixpoint comprehension
  (cond : string -> Completion bool) (l : list string) : Completion (list string) :=
  match l with
  | [] => Returned []
  | ep :: l' =>
      match cond ep with
      | Returned b =>
          match comprehension cond l' with
          | Returned r => Returned (if b then ep :: r else r)
          | SysExit c => SysExit c
          | Raised e => Raised e
          end
      | SysExit c => SysExit c
      | Raised e => Raised e
      end
  end.

Definition has_brackets (ep : string) : bool :=
  contains_char "["%char ep && contains_char "]"%char ep.

(** The three pattern filters, in the order the function applies them. *)
Inductive FilterField : Type := QueryFilter | PathFilter | NameFilter.

(** The line printed when compiling the pattern of a field fails:
    [print(f"...过滤器正则表达式错误: {e}")]. *)
Definition field_label (f : FilterField) : string :=
  match f with
  | QueryFilter => "查询"
  | PathFilter => "路径"
  | NameFilter => "名称"
  end.

Definition regex_error_line (f : FilterField) (e : string) : string :=
  field_label f ++ "过滤器正则表达式错误: " ++ e.

(** An entry has the form the listing gives it: a method, a space, the rest. *)
Definition has_space (ep : string) : bool :=
  match after_first_space ep with
  | Some _ => true
  | None => false
  end.

(** How [re.compile] ends. *)
Inductive Compile (Pattern : Type) : Type :=
| Compiled (pat : Pattern)
| ReError (msg : string)
| CompileRaised (e : PyExn).

Arguments Compiled {Pattern} pat.
Arguments ReError {Pattern} msg.
Arguments CompileRaised {Pattern} e.

Section FilterEndpoints.

(** Python's [re] module and [str.upper] are taken as they are:
    [re_compile p] is [re.compile(p, re.IGNORECASE)], which gives a
    pattern object, raises [re.error] with a message, or raises another
    exception (an [OverflowError] for a repetition count that is too
    large, a [RecursionError] for a pattern nested too deep);
    [re_search pat s] tells whether [pat.search(s)] found a match. *)
Variable Pattern : Type.
Variable re_compile : string -> Compile Pattern.
Variable re_search : Pattern -> string -> bool.
Variable str_upper : string -> string.

(** The condition of each comprehension. *)
Definition query_cond (pat : Pattern) (ep : string) : Completion bool :=
  match split_1 ep with
  | Returned rest =>
      Returned (re_search pat rest
                || (if has_brackets ep then re_search pat ep else false))
  | SysExit c => SysExit c
  | Raised e => Raised e
  end.

Definition path_cond (pat : Pattern) (ep : string) : Completion bool :=
  match split_1 ep with
  | Returned rest => Returned (re_search pat rest)
  | SysExit c => SysExit c
  | Raised e => Raised e
  end.

Definition name_cond (pat : Pattern) (ep : string) : Completion bool :=
  Returned (has_brackets ep && re_search pat ep).

(** One [if f_filter: try: ... except re.error as e: print(...); return []]
    block.  The result is the lines printed and either the new value of
    [filtered] (left) or the completion of the whole function (right).
    Only [re.error] is caught: any other exception of [re.compile]
    leaves the function, as an exception of the comprehension does. *)
Definition filter_step
  (f : FilterField) (pattern : option string)
  (cond : Pattern -> string -> Completion bool) (filtered : list string)
  : list string * (list string + Completion (list string)) :=
  if truthy_opt pattern then
    match re_compile (or_empty pattern) with
    | Compiled pat =>
        match comprehension (cond pat) filtered with
        | Returned filtered' => ([], inl filtered')
        | SysExit c => ([], inr (SysExit c))
        | Raised e => ([], inr (Raised e))
        end
    | ReError e => ([regex_error_line f e], inr (Returned []))
    | CompileRaised e => ([], inr (Raised e))
    end
  else ([], inl filtered).

(** [filter_endpoints], lines 379-430: the printed lines and how the
    call ends. *)
Definition filter_endpoints
  (endpoints : list string)
  (path_filter name_filter method_filter query_filter : option string)
  : list string * Completion (list string) :=
  let filtered := endpoints in
  let filtered :=
    if truthy_opt method_filter then
      let method_filter := str_upper (or_empty method_filter) in
      filter (fun ep => startswith ep (method_filter ++ " ")) filtered
    else filtered in
  match filter_step QueryFilter query_filter query_cond filtered with
  | (out, inr done) => (out, done)
  | (out, inl filtered) =>
      match filter_step PathFilter path_filter path_cond filtered with
      | (out', inr done) => (out ++ out', done)
      | (out', inl filtered) =>
          match filter_step NameFilter name_filter name_cond filtered with
          | (out'', inr done) => (out ++ out' ++ out'', done)
          | (out'', inl filtered) => (out ++ out' ++ out'', Returned filtered)
          end
      end
  end.

(** A filter is supplied (present and not empty) and its pattern is
    malformed: compiling it raises [re.error]. *)
Definition malformed (pattern : option string) : bool :=
  truthy_opt pattern
  && match re_compile (or_empty pattern) with
     | ReError _ => true
     | Compiled _ | CompileRaised _ => false
     end.

Definition compile_error (pattern : option string) : string :=
  match re_compile (or_empty pattern) with
  | ReError e => e
  | Compiled _ | CompileRaised _ => ""
  end.

(** A filter is supplied and compiling its pattern raises an exception
    other than [re.error]. *)
Definition escapes (pattern : option string) : bool :=
  truthy_opt pattern
  && match re_compile (or_empty pattern) with
     | CompileRaised _ => true
     | Compiled _ | ReError _ => false
     end.

(** A filter is supplied and its pattern does not compile, for either
    reason. *)
Definition uncompiled (pattern : option string) : bool :=
  malformed pattern || escapes pattern.

(** The field whose error is reported: the first, in the order query,
    path, name, whose pattern is malformed. *)
Definition first_malformed (query_filter path_filter name_filter : option string)
  : option FilterField :=
  if malformed query_filter then Some QueryFilter
  else if malformed path_filter then Some PathFilter
  else if malformed name_filter then Some NameFilter
  else None.

Definition pattern_of
  (query_filter path_filter name_filter : option string) (f : FilterField)
  : option string :=
  match f with
  | QueryFilter => query_filter
  | PathFilter => path_filter
  | NameFilter => name_filter
  end.

End FilterEndpoints.

(** A stand-in for Python's [re], enough to run the filter.  As in
    Python, compiling ["("] raises [re.error] and compiling
    ["a{99999999999}"] raises [OverflowError]; every other pattern is
    taken as plain text and searched as a substring without regard to
    the case of ASCII letters, which is what [re.IGNORECASE] does for a
    pattern of letters, digits and slashes. *)
Module ToyRe.

Definition Pattern : Type := string.

(** Upper case of the ASCII letters. *)
Definition upper_char (c : ascii) : ascii :=
  let n := nat_of_ascii c in
  if ((97 <=? n)%nat && (n <=? 122)%nat)%bool then ascii_of_nat (n - 32) else c.

Fixpoint str_upper (s : string) : string :=
  match s with
  | EmptyString => EmptyString
  | String c r => String (upper_char c) (str_upper r)
  end.

Definition re_compile (p : string) : Compile Pattern :=
  if String.eqb p "("
  then ReError "missing ), unterminated subpattern at position 0"
  else if String.eqb p "a{99999999999}" then CompileRaised OverflowError
  else Compiled (str_upper p).

Fixpoint search_from (pat : Pattern) (s : string) : bool :=
  startswith s pat
  || match s with
     | EmptyString => false
     | String _ r => search_from pat r
     end.

Definition re_search (pat : Pattern) (s : string) : bool :=
  search_from pat (str_upper s).

Definition filter_endpoints :=
  filter_endpoints re_compile re_search str_upper.

End ToyRe.

(** ** [extract_class_methods.py]: [_paginate_items] *)

(** Python slicing [l[start:stop]] with integer bounds: a negative bound
    counts from the end, and both are clamped to the list. *)
Definition slice_bound (len i : Z) : Z :=
  if (i <? 0)%Z then Z.max (len + i) 0 else Z.min i len.

Definition py_slice {A : Type} (l : list A) (start stop : Z) : list A :=
  let len := Z.of_nat (List.length l) in
  let lo := slice_bound len start in
  let hi := slice_bound len stop in
  firstn (Z.to_nat (hi - lo)) (skipn (Z.to_nat lo) l).

(** [MagicAPIClassExplorer._paginate_items], lines 256-268.  [//] is
    floor division, as [Z.div]; a zero [page_size] raises. *)
Definition _paginate_items {A : Type} (items : list A) (page page_size : Z)
  : Completion (list A * Z * Z) :=
  let total_items := Z.of_nat (List.length items) in
  if (page_size =? 0)%Z then Raised ZeroDivisionError
  else
    let total_pages := ((total_items + page_size - 1) / page_size)%Z in
    if (page >? total_pages)%Z then Returned ([], total_pages, total_items)
    else
      let start_index := ((page - 1) * page_size)%Z in
      let end_index := Z.min (start_index + page_size) total_items in
      let paginated_items := py_slice items start_index end_index in
      Returned (paginated_items, total_pages, total_items).

(** [q] is the ceiling of [a / b] for a positive [b]. *)
Definition is_ceiling_div (q a b : Z) : Prop :=
  ((q - 1) * b < a <= q * b)%Z.

(** The window of one page, empty when the call does not return. *)
Definition page_window {A : Type} (items : list A) (page page_size : Z) : list A :=
  match _paginate_items items page page_size with
  | Returned (window, _, _) => window
  | _ => []
  end.

(** The page count computed at line 259. *)
Definition page_count {A : Type} (items : list A) (page_size : Z) : Z :=
  ((Z.of_nat (List.length items) + page_size - 1) / page_size)%Z.

(** ** [search_manager.py]: [MagicAPISearchClient] *)

(** The [code] field of the decoded response, as [result.get("code")]
    reads it and [== 1] sees it: an integer, a boolean, a float (of
    which only whether it is [1.0] matters), or a value that is no
    number (the key is absent, or holds null, a string, a list or an
    object). *)
Inductive JCode : Type :=
| JInt (z : Z)
| JBool (b : bool)
| JFloat (equals_one : bool)
| JNotNumber.

(** Python's [c == 1]: [True == 1] and [1.0 == 1] hold. *)
Definition eq_one (c : JCode) : bool :=
  match c with
  | JInt z => (z =? 1)%Z
  | JBool b => b
  | JFloat equals_one => equals_one
  | JNotNumber => false
  end.

Section SearchClient.

(** One entry of a decoded list (for a search hit, a dictionary with
    [id], [text], [line]). *)
Variable Item : Type.

(** A decoded JSON value that is not a list, and Python's
    [v[:limit]] on such a value: a string gives a string, the other
    values raise. *)
Variable Other : Type.
Variable slice_other : Other -> Z -> Completion Other.

(** [not keyword.strip()], with Python's notion of white space. *)
Variable is_blank : string -> bool.

(** The [data] field of the decoded response. *)
Inductive JData : Type :=
| DataAbsent
| DataList (l : list Item)
| DataOther (v : Other).

(** A decoded body that is a JSON object; [message] is the text that
    the f-string shows for the field, [None] when the key is absent. *)
Record Envelope : Type := mkEnvelope {
  code : JCode;
  message : option string;
  data : JData
}.

(** What [session.post]/[session.get], [raise_for_status] and
    [response.json()] give together: a decoded body that is an object,
    a decoded body that is not one, a [requests.RequestException] with
    its text, or an exception of another class. *)
Inductive HttpOutcome : Type :=
| Body (result : Envelope)
| BodyNotObject
| RequestException (exc : string)
| OtherException (e : PyExn).

Inductive Request : Type :=
| POST (url : string) (form : list (string * string))
| GET (url : string).

(** What a method returns: a list, or the value of [data] that is not
    one. *)
Inductive SearchResult : Type :=
| Items (l : list Item)
| NotAList (v : Other).

(** A call of the client: it ends at once, or it sends one request and
    continues with the outcome.  Each end carries the lines printed
    and how the call completes. *)
Inductive Call (A : Type) : Type :=
| Done (printed : list string) (v : A)
| Send (req : Request) (k : HttpOutcome -> list string * A).

Definition message_or_default (r : Envelope) : string :=
  match message r with
  | Some m => m
  | None => "未知错误"
  end.

(** The lines after [results = result.get("data", [])]: the limit and
    the return. *)
Definition limit_results (limit : Z) (d : JData) : Completion SearchResult :=
  match d with
  | DataAbsent =>
      Returned (Items (if (limit >? 0)%Z then py_slice [] 0 limit else []))
  | DataList results =>
      Returned (Items (if (limit >? 0)%Z then py_slice results 0 limit else results))
  | DataOther v =>
      if (limit >? 0)%Z then
        match slice_other v limit with
        | Returned v' => Returned (NotAList v')
        | SysExit c => SysExit c
        | Raised e => Raised e
        end
      else Returned (NotAList v)
  end.

(** The body of the [try] block, shared by both methods (lines 53-66
    and 78-91).  Only a [RequestException] is caught; [result.get] on a
    body that is not an object raises [AttributeError]. *)
Definition handle_outcome (limit : Z) (o : HttpOutcome)
  : list string * Completion SearchResult :=
  match o with
  | Body result =>
      if eq_one (code result) then ([], limit_results limit (data result))
      else ([("❌ API 返回错误: " ++ message_or_default result)%string],
            Returned (Items []))
  | BodyNotObject => ([], Raised AttributeError)
  | RequestException exc =>
      ([("❌ 请求异常: " ++ exc)%string], Returned (Items []))
  | OtherException e => ([], Raised e)
  end.

(** [MagicAPISearchClient.search], lines 35-66. *)
Definition search (base_url keyword : string) (limit : Z)
  : Call (Completion SearchResult) :=
  if is_blank keyword then Done ["❌ 搜索关键词不能为空"] (Returned (Items []))
  else
    let url := (base_url ++ "/search")%string in
    let data := [("keyword", keyword)] in
    Send (POST url data) (handle_outcome limit).

(** [MagicAPISearchClient.search_todo], lines 68-91. *)
Definition search_todo (base_url : string) (limit : Z)
  : Call (Completion SearchResult) :=
  let url := (base_url ++ "/todo")%string in
  Send (GET url) (handle_outcome limit).

(** What a call prints and how it completes when [backend] decides the
    outcome of the request it sends, if it sends one. *)
Definition run_call {A : Type} (c : Call A) (backend : Request -> HttpOutcome)
  : list string * A :=
  match c with
  | Done printed v => (printed, v)
  | Send req k => k (backend req)
  end.




End SearchClient.

Arguments DataAbsent {Item Other}.
Arguments DataList {Item Other} l.
Arguments DataOther {Item Other} v.
Arguments BodyNotObject {Item Other}.
Arguments RequestException {Item Other} exc.
Arguments OtherException {Item Other} e.
Arguments Items {Item Other} l.
Arguments NotAList {Item Other} v.
Arguments search {Item Other} slice_other is_blank base_url keyword limit.
Arguments search_todo {Item Other} slice_other base_url limit.

(** Stand-ins for running the client on ASCII text: blank means made of
    ASCII white space only, and no value other than a list can be
    sliced. *)
Module AsciiText.

Definition is_space (c : ascii) : bool :=
  let n := nat_of_ascii c in
  ((9 <=? n)%nat && (n <=? 13)%nat) || ((28 <=? n)%nat && (n <=? 32)%nat).

Fixpoint is_blank (s : string) : bool :=
  match s with
  | EmptyString => true
  | String c r => is_space c && is_blank r
  end.

Definition slice_other (v : unit) (limit : Z) : Completion unit :=
  Raised TypeError.

Definition search := @search nat unit slice_other is_blank.
Definition search_todo := @search_todo nat unit slice_other.

End AsciiText.

(** Sample servers for the search client. *)
Module SearchSamples.

Definition base_url : string := "http://127.0.0.1:10712".

(** A server that answers the two requests of the client with three
    hits and an error, and anything else with a failed connection. *)
Definition backend (req : Request) : HttpOutcome nat unit :=
  match req with
  | POST "http://127.0.0.1:10712/search" [("keyword", "TODO")] =>
      Body (mkEnvelope (JInt 1) None (DataList [10; 20; 30]%nat))
  | GET "http://127.0.0.1:10712/todo" =>
      Body (mkEnvelope (JInt 0) (Some "no scripts") DataAbsent)
  | _ => RequestException "connection refused"
  end.

(** A server whose [data] is [null]. *)
Definition null_backend (req : Request) : HttpOutcome nat unit :=
  Body (mkEnvelope (JInt 1) None (DataOther tt)).

End SearchSamples.

(** ** Path segments and the fragments above a node *)

(** [s.split(sep)] for a one-character separator, given as a test on
    characters. *)
Fixpoint split_on (is_sep : ascii -> bool) (s : string) : list string :=
  match s with
  | EmptyString => [EmptyString]
  | String c r =>
      if is_sep c then EmptyString :: split_on is_sep r
      else
        match split_on is_sep r with
        | h :: t => String c h :: t
        | [] => [String c EmptyString]
        end
  end.

(** The segments of a path: the non-empty pieces between slashes. *)
Definition segments (p : string) : list string :=
  filter truthy (split_on is_slash p).

(** The nodes of a tree in pre-order, each with the [path] fragments of
    the nodes from the root down to it (after those in [trail]). *)
Fixpoint preorder_trail (n : Node) (trail : list string)
  : list (NodeInfo * list string) :=
  match n with
  | Tree node_info children =>
      let trail := trail ++ [path node_info] in
      (node_info, trail)
        :: flat_map (fun child => preorder_trail child trail) children
  end.

(** The segments of all fragments of a trail, joined by single slashes. *)
Definition joined_segments (trail : list string) : string :=
  String.concat "/" (flat_map segments trail).

(** A node with the full path joined from its trail. *)
Definition with_full_path (e : NodeInfo * list string) : NodeInfo * string :=
  (fst e, joined_segments (snd e)).

(** The nodes of the whole resource list with their trails. *)
Definition trail_forest (api_children : list Node) : list (NodeInfo * list string) :=
  flat_map (fun child => preorder_trail child []) api_children.

(** A match as the callers rely on it: an id and a method that are not
    empty, and a path that is not empty and in normal form. *)
Definition well_formed_match (m : Match) : Prop :=
  truthy (match_id m) = true /\ truthy (match_method m) = true /\
  truthy (match_path m) = true /\ normal (match_path m).

(** ** [extract_api_paths.py]: the CSV rows printed by [main] *)

(** [s.split(' ', 1)] when [s] has a space: the text before the first
    space and the text after it. *)
Fixpoint split_once (s : string) : option (string * string) :=
  match s with
  | EmptyString => None
  | String c r =>
      if Ascii.eqb c " "%char then Some (EmptyString, r)
      else
        match split_once r with
        | Some (a, b) => Some (String c a, b)
        | None => None
        end
  end.

(** [endpoint.split(' ', 2)], line 765. *)
Definition split_2 (endpoint : string) : list string :=
  match split_once endpoint with
  | None => [endpoint]
  | Some (a, rest) =>
      match split_once rest with
      | None => [a; rest]
      | Some (b, rest') => [a; b; rest']
      end
  end.

(** [s.endswith(c)] for one character. *)
Fixpoint endswith_char (c : ascii) (s : string) : bool :=
  match s with
  | EmptyString => false
  | String a r =>
      match r with
      | EmptyString => Ascii.eqb a c
      | String _ _ => endswith_char c r
      end
  end.

Definition startswith_char (c : ascii) (s : string) : bool :=
  match s with
  | EmptyString => false
  | String a _ => Ascii.eqb a c
  end.

(** [s[:-1]] and [s[1:-1]]. *)
Fixpoint drop_last (s : string) : string :=
  match s with
  | EmptyString => EmptyString
  | String a r =>
      match r with
      | EmptyString => EmptyString
      | String _ _ => String a (drop_last r)
      end
  end.

Definition strip_ends (s : string) : string :=
  match s with
  | EmptyString => EmptyString
  | String _ r => drop_last r
  end.

(** Lines 765-772: the method, the path and the name read back from a
    line of the listing; [parts[1]] raises on a line without a space. *)
Definition parse_endpoint (endpoint : string) : Completion (string * string * string) :=
  match split_2 endpoint with
  | [] => Raised IndexError
  | [_] => Raised IndexError
  | [method; path] => Returned (method, path, "")
  | method :: path :: part2 :: _ =>
      let name :=
        if startswith_char "["%char part2 && endswith_char "]"%char part2
        then strip_ends part2
        else "" in
      Returned (method, path, name)
  end.

Definition dquote : ascii := ascii_of_nat 34.
Definition newline : ascii := ascii_of_nat 10.

(** [field.replace(chr(34), chr(34) + chr(34))] *)
Fixpoint double_quotes (field : string) : string :=
  match field with
  | EmptyString => EmptyString
  | String c r =>
      if Ascii.eqb c dquote
      then String dquote (String dquote (double_quotes r))
      else String c (double_quotes r)
  end.

(** [escape_csv_field], lines 775-778. *)
Definition escape_csv_field (field : string) : string :=
  if contains_char ","%char field || contains_char dquote field
     || contains_char newline field
  then String dquote (double_quotes field ++ String dquote EmptyString)%string
  else field.

(** The row printed for one line, line 780. *)
Definition csv_row (endpoint : string) : Completion string :=
  match parse_endpoint endpoint with
  | Returned (method, path, name) =>
      Returned (method ++ "," ++ escape_csv_field path ++ ","
                ++ escape_csv_field name)%string
  | SysExit c => SysExit c
  | Raised e => Raised e
  end.

(** The loop of lines 763-780: the rows in order; an exception in one
    iteration ends the loop. *)
Fixpoint csv_rows (filtered_endpoints : list string) : Completion (list string) :=
  match filtered_endpoints with
  | [] => Returned []
  | endpoint :: rest =>
      match csv_row endpoint with
      | Returned row =>
          match csv_rows rest with
          | Returned rows => Returned (row :: rows)
          | SysExit c => SysExit c
          | Raised e => Raised e
          end
      | SysExit c => SysExit c
      | Raised e => Raised e
      end
  end.


(** [r] keeps some of the entries of [l], in their order. *)
Inductive Subseq {A : Type} : list A -> list A -> Prop :=
| Subseq_nil : Subseq [] []
| Subseq_skip (x : A) (r l : list A) : Subseq r l -> Subseq r (x :: l)
| Subseq_keep (x : A) (r l : list A) : Subseq r l -> Subseq (x :: r) (x :: l).

(** ** [extract_class_methods.py]: [_match_pattern] *)

(** [sub in text] for strings. *)
Fixpoint contains_sub (sub text : string) : bool :=
  startswith text sub
  || match text with
     | EmptyString => false
     | String _ r => contains_sub sub r
     end.

Section MatchPattern.

(** [str.lower], [str.split] and [re.search] are taken as they are:
    [str_split pattern] is [pattern.split()], the words between runs of
    white space; [re_search_text pattern text case_sensitive] is
    [bool(re.search(pattern, text, flags))] with [flags] chosen from
    [case_sensitive], or [None] when [re.error] is raised.  A pattern
    on which [re.search] raises another exception ends the method with
    that exception; such a call has no value here. *)
Variable str_lower : string -> string.
Variable str_split : string -> list string.
Variable re_search_text : string -> string -> bool -> option bool.

(** The test of one keyword against the text, lines 409-412 and 419-422. *)
Definition keyword_matches (case_sensitive exact : bool) (kw text : string) : bool :=
  if case_sensitive then
    if exact then String.eqb kw text else contains_sub kw text
  else
    if exact then String.eqb (str_lower kw) (str_lower text)
    else contains_sub (str_lower kw) (str_lower text).

(** [MagicAPIClassExplorer._match_pattern], lines 391-422.
    [search_logic] is the attribute [_search_logic], [None] while it is
    not set. *)
Definition _match_pattern (search_logic : option string)
  (text pattern : string) (case_sensitive exact is_regex : bool) : bool :=
  if negb (truthy text) then false
  else if is_regex then
    match re_search_text pattern text case_sensitive with
    | Some found => found
    | None => false
    end
  else
    let keywords := str_split pattern in
    if (1 <? List.length keywords)%nat then
      let matches :=
        map (fun kw => keyword_matches case_sensitive exact kw text) keywords in
      match search_logic with
      | Some logic =>
          if String.eqb logic "and" then forallb (fun b => b) matches
          else existsb (fun b => b) matches
      | None => existsb (fun b => b) matches
      end
    else keyword_matches case_sensitive exact pattern text.

(** [MagicAPIClassExplorer._should_exclude], lines 424-432. *)
Definition _should_exclude
  (text : string) (exclude_pattern : option string) (case_sensitive : bool) : bool :=
  if negb (truthy_opt exclude_pattern) || negb (truthy text) then false
  else if case_sensitive then contains_sub (or_empty exclude_pattern) text
  else contains_sub (str_lower (or_empty exclude_pattern)) (str_lower text).

(** The selection of lines 528-547 in [search_enhanced]: the names that
    match the pattern and are not excluded, in order. *)
Definition select_names (search_logic : option string) (names : list string)
  (pattern : string) (exclude_pattern : option string)
  (case_sensitive exact is_regex : bool) : list string :=
  filter (fun class_name =>
            _match_pattern search_logic class_name pattern
                           case_sensitive exact is_regex
            && negb (_should_exclude class_name exclude_pattern case_sensitive))
         names.

End MatchPattern.

(** ** [filter_endpoints]: the entries that pass *)

Section FilterPasses.

Variable Pattern : Type.
Variable re_compile : string -> Compile Pattern.
Variable re_search : Pattern -> string -> bool.
Variable str_upper : string -> string.

(** The text after the first space of an entry that has one. *)
Definition rest_of (ep : string) : string :=
  match after_first_space ep with
  | Some rest => rest
  | None => ""
  end.

(** The test a compiled pattern makes on an entry, for each field. *)
Definition field_test (f : FilterField) (pat : Pattern) (ep : string) : bool :=
  match f with
  | QueryFilter =>
      re_search pat (rest_of ep)
      || (if has_brackets ep then re_search pat ep else false)
  | PathFilter => re_search pat (rest_of ep)
  | NameFilter => has_brackets ep && re_search pat ep
  end.

(** An entry passes a pattern filter that is absent or empty, and
    otherwise passes when the compiled pattern finds a match. *)
Definition passes (f : FilterField) (pattern : option string) (ep : string) : bool :=
  if truthy_opt pattern then
    match re_compile (or_empty pattern) with
    | Compiled pat => field_test f pat ep
    | ReError _ | CompileRaised _ => false
    end
  else true.

Definition passes_method (method_filter : option string) (ep : string) : bool :=
  if truthy_opt method_filter
  then startswith ep (str_upper (or_empty method_filter) ++ " ")
  else true.

(** An entry passes all four filters. *)
Definition passes_all
  (path_filter name_filter method_filter query_filter : option string)
  (ep : string) : bool :=
  passes_method method_filter ep
  && passes QueryFilter query_filter ep
  && passes PathFilter path_filter ep
  && passes NameFilter name_filter ep.

End FilterPasses.

(** ** Sample trees *)

Module Samples.

Definition endpoint (i p nm m : string) : Node :=
  Tree (mkNodeInfo (Some i) p nm (Some m) (Some "g1")) [].

Definition group (i p nm : string) (children : list Node) : Node :=
  Tree (mkNodeInfo (Some i) p nm None None) children.

(** A group mounted at the root whose only endpoint is its index. *)
Definition root_index : Node :=
  group "g0" "/" "root" [endpoint "e0" "/" "index" "GET"].

(** Two endpoints delivered in the order [b], [a]. *)
Definition b_then_a : list Node :=
  [endpoint "e2" "b" "" "GET"; endpoint "e1" "a" "" "GET"].

(** [db/module/list] under two groups, and a sibling endpoint. *)
Definition db_tree : list Node :=
  [group "g1" "db" "database"
     [group "g2" "/module/" "module"
        [endpoint "e1" "list" "list modules" "GET";
         endpoint "e2" "save" "save" "POST"]];
   endpoint "e3" "ping" "ping" "GET"].

End Samples.

(** * Properties *)

Example normalize_path_ex1 : normalize_path "//a///b//c/" = "a/b/c".
Proof. reflexivity. Qed.

Example normalize_path_ex2 : normalize_path "////" = "".
Proof. reflexivity. Qed.

(** ** Normalisation *)

Module PathFacts.

(** Induction that peels one character but also knows the property
    for the string with one more character in front, as the recursion
    of [replace_dslash] needs. *)
Lemma string_pair_ind (P : string -> Prop) :
  P "" ->
  (forall c, P (String c "")) ->
  (forall c c' r, P r -> P (String c' r) -> P (String c (String c' r))) ->
  forall s, P s.
Proof.
  intros H0 H1 H2 s.
  enough (H : P s /\ forall c, P (String c s)) by apply H.
  induction s as [|a s [IHs IHc]].
  - split; [exact H0 | exact H1].
  - split; [apply IHc|]. intro c. apply H2; [exact IHs | apply IHc].
Qed.

Lemma replace_dslash_cons2 c c' r :
  replace_dslash (String c (String c' r)) =
  if is_slash c && is_slash c'
  then String slash (replace_dslash r)
  else String c (replace_dslash (String c' r)).
Proof. reflexivity. Qed.

Lemma replace_dslash_empty s : replace_dslash s = "" -> s = "".
Proof.
  destruct s as [|c [|c' r]]; [reflexivity | discriminate |].
  rewrite replace_dslash_cons2. destruct (is_slash c && is_slash c'); discriminate.
Qed.

Lemma starts_slash_replace s :
  starts_slash (replace_dslash s) = starts_slash s.
Proof.
  destruct s as [|c [|c' r]]; try reflexivity.
  rewrite replace_dslash_cons2.
  destruct (is_slash c) eqn:Hc, (is_slash c') eqn:Hc'; cbn; auto.
Qed.

Lemma ends_slash_replace s :
  ends_slash (replace_dslash s) = ends_slash s.
Proof.
  induction s as [|c|c c' r IHr IHc'] using string_pair_ind; try reflexivity.
  rewrite replace_dslash_cons2.
  destruct (is_slash c && is_slash c') eqn:Hcc.
  - apply andb_prop in Hcc as [_ Hc'].
    destruct r as [|d r].
    + cbn. exact (eq_sym Hc').
    + change (ends_slash (String c (String c' (String d r))))
        with (ends_slash (String d r)).
      rewrite <- IHr.
      destruct (replace_dslash (String d r)) eqn:E.
      * apply replace_dslash_empty in E. discriminate.
      * reflexivity.
  - change (ends_slash (String c (String c' r)))
      with (ends_slash (String c' r)).
    rewrite <- IHc'.
    destruct (replace_dslash (String c' r)) eqn:E.
    + apply replace_dslash_empty in E. discriminate.
    + reflexivity.
Qed.

Lemma lstrip_length s :
  (String.length (lstrip_slash s) <= String.length s)%nat.
Proof.
  induction s as [|c r IH]; cbn; [lia|].
  destruct (is_slash c); cbn; lia.
Qed.

Lemma lstrip_fixed s : starts_slash s = false -> lstrip_slash s = s.
Proof. destruct s as [|c r]; cbn; [reflexivity|]. now intros ->. Qed.

Lemma starts_slash_lstrip s : starts_slash (lstrip_slash s) = false.
Proof.
  induction s as [|c r IH]; cbn; [reflexivity|].
  destruct (is_slash c) eqn:Hc; [exact IH | cbn; exact Hc].
Qed.

Lemma rstrip_fixed s : ends_slash s = false -> rstrip_slash s = s.
Proof.
  induction s as [|c r IH]; [reflexivity|].
  destruct r as [|c' r'].
  - cbn. now intros ->.
  - intro H. change (ends_slash (String c (String c' r')))
      with (ends_slash (String c' r')) in H.
    cbn [rstrip_slash] in *. rewrite (IH H). reflexivity.
Qed.

Lemma ends_slash_rstrip s : ends_slash (rstrip_slash s) = false.
Proof.
  induction s as [|c r IH]; [reflexivity|].
  cbn [rstrip_slash].
  destruct (rstrip_slash r) as [|d r'] eqn:E.
  - destruct (is_slash c) eqn:Hc; cbn; [reflexivity | exact Hc].
  - exact IH.
Qed.

Lemma starts_slash_rstrip s :
  starts_slash s = false -> starts_slash (rstrip_slash s) = false.
Proof.
  destruct s as [|c r]; [reflexivity|].
  cbn [rstrip_slash starts_slash]. intro Hc.
  destruct (rstrip_slash r); [rewrite Hc|]; cbn; auto.
Qed.

Lemma collapse_fixed s : has_dslash s = false -> collapse_slashes s = s.
Proof.
  intro H. rewrite collapse_slashes_equation_1.
  destruct (inspect (has_dslash s)) as [[|] E]; [congruence | reflexivity].
Qed.

Lemma has_dslash_collapse s : has_dslash (collapse_slashes s) = false.
Proof.
  funelim (collapse_slashes s); [assumption | congruence].
Qed.

Lemma starts_slash_collapse s :
  starts_slash (collapse_slashes s) = starts_slash s.
Proof.
  funelim (collapse_slashes s); [|reflexivity].
  rewrite H. apply starts_slash_replace.
Qed.

Lemma ends_slash_collapse s :
  ends_slash (collapse_slashes s) = ends_slash s.
Proof.
  funelim (collapse_slashes s); [|reflexivity].
  rewrite H. apply ends_slash_replace.
Qed.

Lemma strip_slash_normal_ends s :
  starts_slash (strip_slash s) = false /\ ends_slash (strip_slash s) = false.
Proof.
  unfold strip_slash. split.
  - apply starts_slash_rstrip, starts_slash_lstrip.
  - apply ends_slash_rstrip.
Qed.

Lemma normalize_path_normal p : normal (normalize_path p).
Proof.
  unfold normalize_path. destruct (truthy p); cbn [negb].
  - destruct (strip_slash_normal_ends p) as [Hs He].
    repeat split.
    + rewrite starts_slash_collapse. exact Hs.
    + rewrite ends_slash_collapse. exact He.
    + apply has_dslash_collapse.
  - repeat split.
Qed.

Lemma normalize_path_fixed s : normal s -> normalize_path s = s.
Proof.
  intros (Hs & He & Hd). unfold normalize_path.
  destruct s as [|c r]; [reflexivity|]. cbn [truthy negb].
  unfold strip_slash. rewrite (lstrip_fixed _ Hs), (rstrip_fixed _ He).
  apply collapse_fixed, Hd.
Qed.

Lemma normalize_path_leading_slash t :
  normalize_path (String slash t) = normalize_path t.
Proof.
  unfold normalize_path, strip_slash. cbn.
  destruct t as [|c r]; reflexivity.
Qed.

End PathFacts.

(** C2.  Path normalisation is idempotent: normalising a normalised path
    changes nothing, for [normalize_path] and for [clean_path]; the
    normalised path has no slash at either end and no doubled slash. *)
Theorem normalize_path_idempotent :
  forall p : string,
    normalize_path (normalize_path p) = normalize_path p /\
    clean_path (clean_path p) = clean_path p /\
    normal (normalize_path p).
Proof.
  intro p.
  assert (H : normalize_path (normalize_path p) = normalize_path p)
    by apply PathFacts.normalize_path_fixed, PathFacts.normalize_path_normal.
  split; [exact H | split; [exact H | apply PathFacts.normalize_path_normal]].
Qed.

(** C9.  The two normalisation functions agree on every input:
    [clean_path p] equals [normalize_path p]. *)
Theorem clean_path_eq_normalize_path :
  forall p : string, clean_path p = normalize_path p.
Proof.
  intro p. unfold clean_path, normalize_path.
  destruct (truthy p); reflexivity.
Qed.

(** ** The two tree walks *)

Module TreeFacts.

(** Induction on trees with the hypothesis for every child. *)
Lemma Node_ind_forall (P : Node -> Prop) :
  (forall node_info children,
      Forall P children -> P (Tree node_info children)) ->
  forall n, P n.
Proof.
  intro step.
  fix IH 1. intros [node_info children]. apply step.
  induction children as [|c cs IHcs]; constructor; [apply IH | exact IHcs].
Qed.

(** A loop that appends to [results] child by child appends the
    concatenation of what each child contributes. *)
Lemma fold_left_appends (A B : Type)
      (walk : B -> list A -> list A) (contrib : B -> list A) (cs : list B) :
  Forall (fun c => forall results, walk c results = results ++ contrib c) cs ->
  forall results,
    fold_left (fun results c => walk c results) cs results
    = results ++ flat_map contrib cs.
Proof.
  induction 1 as [|c cs Hc _ IH]; intro results; cbn.
  - now rewrite app_nil_r.
  - rewrite IH, Hc, <- app_assoc. reflexivity.
Qed.

Lemma flat_map_map_filter (A B C : Type)
      (f : B -> C) (p : B -> bool) (g : A -> list B) (l : list A) :
  flat_map (fun a => map f (filter p (g a))) l
  = map f (filter p (flat_map g l)).
Proof.
  induction l as [|a l IH]; cbn; [reflexivity|].
  rewrite filter_app, map_app, IH. reflexivity.
Qed.

Lemma find_api_by_path_preorder target_path n :
  forall parent_path results,
    find_api_by_path n target_path parent_path results
    = results ++ map to_match
                     (filter (code_selects target_path) (preorder n parent_path)).
Proof.
  induction n as [node_info children IH] using Node_ind_forall.
  intros parent_path results.
  cbn [find_api_by_path preorder].
  set (full_path := clean_path (join_path parent_path (path node_info))).
  rewrite fold_left_appends
    with (contrib := fun c => map to_match
                                  (filter (code_selects target_path)
                                          (preorder c full_path))).
  2:{ eapply Forall_impl; [|exact IH]. intros c Hc r. apply Hc. }
  rewrite flat_map_map_filter.
  cbn [filter]. unfold code_selects at 2, has_method_and_id, truthy_opt.
  cbn [fst snd].
  destruct (method node_info) as [m|] eqn:Em;
    [destruct (id node_info) as [i|] eqn:Ei|].
  - destruct (truthy m), (truthy full_path), (truthy i); cbn [andb];
      try reflexivity.
    destruct (path_matches _ _); cbn [map]; [|reflexivity].
    rewrite <- app_assoc.
    unfold to_match; cbn [fst snd]. rewrite Em, Ei. reflexivity.
  - rewrite andb_false_r. reflexivity.
  - reflexivity.
Qed.

Lemma traverse_api_tree_preorder n :
  forall parent_path results,
    traverse_api_tree n parent_path results
    = results ++ map to_line (filter listed (preorder n parent_path)).
Proof.
  induction n as [node_info children IH] using Node_ind_forall.
  intros parent_path results.
  cbn [traverse_api_tree preorder].
  set (full_path := clean_path (join_path parent_path (path node_info))).
  rewrite fold_left_appends
    with (contrib := fun c => map to_line (filter listed (preorder c full_path))).
  2:{ eapply Forall_impl; [|exact IH]. intros c Hc r. apply Hc. }
  rewrite flat_map_map_filter.
  cbn [filter]. unfold listed at 2, truthy_opt. cbn [fst snd].
  destruct (method node_info) as [m|] eqn:Em; [|reflexivity].
  destruct (truthy m && truthy full_path); [|reflexivity].
  cbn [map]. rewrite <- app_assoc.
  unfold to_line; cbn [fst snd]. rewrite Em. reflexivity.
Qed.

Lemma find_forest target_path (api_children : list Node) :
  fold_left
    (fun results child => find_api_by_path child target_path "" results)
    api_children []
  = map to_match
        (filter (code_selects target_path) (preorder_forest api_children)).
Proof.
  rewrite fold_left_appends
    with (contrib := fun c => map to_match
                                  (filter (code_selects target_path)
                                          (preorder c ""))).
  - cbn [app]. apply flat_map_map_filter.
  - apply Forall_forall. intros c _ r. apply find_api_by_path_preorder.
Qed.

Lemma traverse_forest_preorder (api_children : list Node) :
  traverse_forest api_children
  = map to_line (filter listed (preorder_forest api_children)).
Proof.
  unfold traverse_forest.
  rewrite fold_left_appends
    with (contrib := fun c => map to_line (filter listed (preorder c ""))).
  - cbn [app]. apply flat_map_map_filter.
  - apply Forall_forall. intros c _ r. apply traverse_api_tree_preorder.
Qed.

(** The selection reads the target only through its normal form. *)
Lemma code_selects_leading_slash t e :
  code_selects (String slash t) e = code_selects t e.
Proof.
  unfold code_selects. now rewrite PathFacts.normalize_path_leading_slash.
Qed.

Lemma filter_code_selects_leading_slash t l :
  filter (code_selects (String slash t)) l = filter (code_selects t) l.
Proof. apply filter_ext. intro e. apply code_selects_leading_slash. Qed.

(** Whatever the code selects, the specification's policy selects:
    a target that matches no node under that policy matches none under
    the code's. *)
Lemma code_selects_spec_selects t e :
  code_selects t e = true -> spec_selects t e = true.
Proof.
  unfold code_selects, spec_selects. intro H.
  apply andb_prop in H as [H Hm]. apply andb_prop in H as [Hi _].
  now rewrite Hi, Hm.
Qed.

Lemma no_spec_match_no_code_match t l :
  existsb (spec_selects t) l = false -> existsb (code_selects t) l = false.
Proof.
  intro H. apply not_true_is_false. intro Hc.
  apply existsb_exists in Hc as (e & He & Hsel).
  apply code_selects_spec_selects in Hsel.
  assert (existsb (spec_selects t) l = true)
    by (apply existsb_exists; now exists e).
  congruence.
Qed.

Lemma filter_none (A : Type) (p : A -> bool) (l : list A) :
  existsb p l = false -> filter p l = [].
Proof.
  induction l as [|a l IH]; cbn; [reflexivity|].
  destruct (p a); cbn; [discriminate | exact IH].
Qed.

End TreeFacts.

Module SortFacts.

Lemma insert_sorted_perm x l : Permutation (x :: l) (insert_sorted x l).
Proof.
  induction l as [|y l IH]; cbn; [apply Permutation_refl|].
  destruct (String.leb x y); [apply Permutation_refl|].
  eapply perm_trans; [apply perm_swap | apply perm_skip, IH].
Qed.

Lemma py_sorted_perm l : Permutation l (py_sorted l).
Proof.
  induction l as [|x l IH]; cbn; [constructor|].
  eapply perm_trans; [apply perm_skip, IH | apply insert_sorted_perm].
Qed.

Lemma insert_sorted_hd x y l :
  str_le y x -> HdRel str_le y l -> HdRel str_le y (insert_sorted x l).
Proof.
  intros Hyx H. destruct l as [|z l]; cbn; [now constructor|].
  inversion H; subst. destruct (String.leb x z); now constructor.
Qed.

Lemma insert_sorted_sorted x l :
  Sorted str_le l -> Sorted str_le (insert_sorted x l).
Proof.
  induction 1 as [|y l Hs IH Hhd]; cbn; [repeat constructor|].
  destruct (String.leb x y) eqn:E.
  - constructor; [now constructor | now constructor].
  - constructor; [exact IH|].
    apply insert_sorted_hd; [|exact Hhd].
    destruct (String.leb_total x y) as [H|H]; [congruence | exact H].
Qed.

Lemma py_sorted_sorted l : Sorted str_le (py_sorted l).
Proof.
  induction l as [|x l IH]; cbn; [constructor|].
  apply insert_sorted_sorted, IH.
Qed.

End SortFacts.

Example db_tree_ancestor_rule :
  find_api_id_by_path (ApiChildren Samples.db_tree) "db/module"
  = Returned [mkMatch "e1" "db/module/list" "GET" "list modules" (Some "g1");
              mkMatch "e2" "db/module/save" "POST" "save" (Some "g1")].
Proof. reflexivity. Qed.

Example db_tree_descendant_rule :
  find_api_id_by_path (ApiChildren Samples.db_tree) "db/module/list/extra"
  = Returned [mkMatch "e1" "db/module/list" "GET" "list modules" (Some "g1")].
Proof. reflexivity. Qed.

(** ** The matching walk *)

(** C1, as stated, fails: an endpoint whose full path is empty has a
    method and an id and its normalised full path equals the normalised
    target ["/"], yet [find_api_by_path] does not return it. *)
Lemma find_api_by_path_skips_empty_full_path :
  find_api_by_path Samples.root_index "/" "" [] = [] /\
  map to_match (filter (spec_selects "/") (preorder Samples.root_index ""))
  = [mkMatch "e0" "" "GET" "index" (Some "g1")] /\
  find_api_by_path Samples.root_index "/" "" []
  <> map to_match (filter (spec_selects "/") (preorder Samples.root_index "")).
Proof. repeat split; try reflexivity. discriminate. Qed.

(** C1, amended.  [find_api_by_path] appends to [results], in pre-order,
    exactly the nodes that have a method, an id and a non-empty full
    path and whose normalised full path equals the normalised target,
    or starts with the normalised target followed by ["/"], or, once
    followed by ["/"], is a prefix of the normalised target; no other
    node is returned. *)
Theorem find_api_by_path_returns_selected :
  forall (target_path : string),
    (forall (n : Node) (parent_path : string) (results : list Match),
        find_api_by_path n target_path parent_path results
        = results ++ map to_match
                         (filter (code_selects target_path)
                                 (preorder n parent_path))) /\
    (forall api_children : list Node,
        find_api_id_by_path (ApiChildren api_children) target_path
        = Returned (map to_match
                        (filter (code_selects target_path)
                                (preorder_forest api_children)))).
Proof.
  intro target_path. split.
  - intros n parent_path results. apply TreeFacts.find_api_by_path_preorder.
  - intro api_children. unfold find_api_id_by_path.
    now rewrite TreeFacts.find_forest.
Qed.

(** C5.  A leading ["/"] on the target path does not change the result:
    the same matches in the same order, for one tree and for the whole
    loaded resource list. *)
Theorem find_api_by_path_leading_slash :
  forall (t : string),
    (forall (n : Node) (parent_path : string) (results : list Match),
        find_api_by_path n (String slash t) parent_path results
        = find_api_by_path n t parent_path results) /\
    (forall source : Loaded,
        find_api_id_by_path source (String slash t)
        = find_api_id_by_path source t).
Proof.
  intro t. split.
  - intros n parent_path results.
    rewrite !TreeFacts.find_api_by_path_preorder.
    now rewrite TreeFacts.filter_code_selects_leading_slash.
  - intros [api_children|e]; [|reflexivity].
    unfold find_api_id_by_path. rewrite !TreeFacts.find_forest.
    now rewrite TreeFacts.filter_code_selects_leading_slash.
Qed.

(** C6.  When the target matches no node of the loaded tree, the lookup
    returns normally with the empty list: no exit, no exception.  The
    same holds for the walk of each tree.  "Matches no node" is taken
    with the code's selection, which is implied by matching no node
    under the specification's policy. *)
Theorem find_api_id_by_path_no_match :
  forall (api_children : list Node) (target_path : string),
    existsb (code_selects target_path) (preorder_forest api_children) = false ->
    find_api_id_by_path (ApiChildren api_children) target_path = Returned [] /\
    Forall (fun n => find_api_by_path n target_path "" [] = []) api_children.
Proof.
  intros api_children target_path H. split.
  - unfold find_api_id_by_path. rewrite TreeFacts.find_forest.
    now rewrite (TreeFacts.filter_none _ _ H).
  - apply Forall_forall. intros n Hn.
    rewrite TreeFacts.find_api_by_path_preorder. cbn [app].
    rewrite TreeFacts.filter_none; [reflexivity|].
    apply not_true_is_false. intro Hex.
    apply existsb_exists in Hex as (e & He & Hsel).
    assert (Hin : In e (preorder_forest api_children)).
    { unfold preorder_forest. apply in_flat_map. now exists n. }
    assert (Hall : existsb (code_selects target_path)
                           (preorder_forest api_children) = true).
    { apply existsb_exists. now exists e. }
    congruence.
Qed.

Lemma find_api_id_by_path_no_match_witness :
  existsb (code_selects "nonexistent/path") (preorder_forest Samples.db_tree) = false /\
  find_api_id_by_path (ApiChildren Samples.db_tree) "nonexistent/path" = Returned [] /\
  Forall (fun n => find_api_by_path n "nonexistent/path" "" [] = []) Samples.db_tree.
Proof.
  split; [reflexivity|].
  apply (find_api_id_by_path_no_match Samples.db_tree "nonexistent/path").
  reflexivity.
Defined.

(** ** The listing walk *)

(** C4, as stated, fails: [extract_api_endpoints] sorts what the walk
    collected, so two endpoints delivered as [b], [a] are listed as
    [a], [b]. *)
Lemma extract_api_endpoints_not_in_delivery_order :
  extract_api_endpoints (ApiChildren Samples.b_then_a) = Returned ["GET a"; "GET b"] /\
  map to_line (filter listed (preorder_forest Samples.b_then_a)) = ["GET b"; "GET a"] /\
  extract_api_endpoints (ApiChildren Samples.b_then_a)
  <> Returned (map to_line (filter listed (preorder_forest Samples.b_then_a))).
Proof. repeat split; try reflexivity. discriminate. Qed.

(** C4, amended.  [traverse_api_tree] collects one line for every node
    with a method and a non-empty full path, in the pre-order that the
    matching walk follows; [extract_api_endpoints] returns these lines
    sorted in ascending order, a permutation of the collected ones. *)
Theorem extract_api_endpoints_sorted_preorder :
  forall (api_children : list Node),
    traverse_forest api_children
    = map to_line (filter listed (preorder_forest api_children)) /\
    (forall target_path,
        find_api_id_by_path (ApiChildren api_children) target_path
        = Returned (map to_match (filter (code_selects target_path)
                                         (preorder_forest api_children)))) /\
    exists out,
      extract_api_endpoints (ApiChildren api_children) = Returned out /\
      Permutation (map to_line (filter listed (preorder_forest api_children))) out /\
      Sorted str_le out.
Proof.
  intro api_children. split; [|split].
  - apply TreeFacts.traverse_forest_preorder.
  - intro target_path. unfold find_api_id_by_path.
    now rewrite TreeFacts.find_forest.
  - exists (py_sorted (traverse_forest api_children)).
    split; [reflexivity|]. split.
    + rewrite <- TreeFacts.traverse_forest_preorder. apply SortFacts.py_sorted_perm.
    + apply SortFacts.py_sorted_sorted.
Qed.

(** ** Pagination *)

Module PageFacts.

Lemma total_pages_is_ceiling (total page_size : Z) :
  (1 <= page_size)%Z ->
  is_ceiling_div ((total + page_size - 1) / page_size) total page_size.
Proof.
  intro Hps. unfold is_ceiling_div.
  pose proof (Z.div_mod (total + page_size - 1) page_size ltac:(lia)) as Hdm.
  pose proof (Z.mod_pos_bound (total + page_size - 1) page_size ltac:(lia)) as Hb.
  nia.
Qed.

Lemma ceiling_div_unique (q q' a b : Z) :
  (1 <= b)%Z -> is_ceiling_div q a b -> is_ceiling_div q' a b -> q = q'.
Proof. unfold is_ceiling_div. intros. nia. Qed.

End PageFacts.

Example paginate_25_page_3 :
  _paginate_items (seq 1 25) 3 10 = Returned ([21; 22; 23; 24; 25]%nat, 3%Z, 25%Z).
Proof. reflexivity. Qed.

Example paginate_25_page_1 :
  _paginate_items (seq 1 25) 1 10
  = Returned (seq 1 10, 3%Z, 25%Z).
Proof. reflexivity. Qed.

(** C3.  For [page >= 1] and [page_size >= 1], [_paginate_items] returns
    normally; the page count it returns is the ceiling of the item count
    divided by the page size, the total is the item count, and a page
    beyond the page count gives the empty window with the same page
    count and total.  For 25 items and page size 10 the page count is 3
    and page 4 gives the empty window. *)
Theorem paginate_items_total_pages :
  forall (A : Type) (items : list A) (page page_size : Z),
    (1 <= page)%Z -> (1 <= page_size)%Z ->
    exists (window : list A) (total_pages : Z),
      _paginate_items items page page_size
      = Returned (window, total_pages, Z.of_nat (List.length items)) /\
      is_ceiling_div total_pages (Z.of_nat (List.length items)) page_size /\
      ((page > total_pages)%Z -> window = []) /\
      (List.length items = 25%nat -> page_size = 10%Z ->
       total_pages = 3%Z /\ (page = 4%Z -> window = [])).
Proof.
  intros A items page page_size Hpage Hps.
  pose proof (PageFacts.total_pages_is_ceiling
                (Z.of_nat (List.length items)) Hps) as Hceil.
  unfold _paginate_items.
  destruct (page_size =? 0)%Z eqn:E0; [apply Z.eqb_eq in E0; lia|].
  set (total_pages := ((Z.of_nat (List.length items) + page_size - 1) / page_size)%Z) in *.
  assert (H25 : List.length items = 25%nat -> page_size = 10%Z -> total_pages = 3%Z).
  { intros Hl ->. subst total_pages. rewrite Hl. reflexivity. }
  destruct (page >? total_pages)%Z eqn:Egt.
  - exists [], total_pages. repeat split; auto; apply Hceil.
  - eexists _, total_pages. split; [reflexivity|].
    split; [exact Hceil|].
    assert (Hle : (page <= total_pages)%Z).
    { rewrite Z.gtb_ltb in Egt. apply Z.ltb_ge in Egt. exact Egt. }
    split; [lia|]. intros Hl Hp. split; [auto|].
    specialize (H25 Hl Hp). lia.
Qed.

Lemma paginate_items_total_pages_witness :
  (1 <= 4)%Z /\ (1 <= 10)%Z /\
  exists (window : list nat) (total_pages : Z),
    _paginate_items (seq 1 25) 4 10
    = Returned (window, total_pages, Z.of_nat (List.length (seq 1 25))) /\
    is_ceiling_div total_pages (Z.of_nat (List.length (seq 1 25))) 10 /\
    ((4 > total_pages)%Z -> window = []) /\
    (List.length (seq 1 25) = 25%nat -> 10%Z = 10%Z ->
     total_pages = 3%Z /\ (4%Z = 4%Z -> window = [])).
Proof.
  split; [lia|]. split; [lia|].
  apply (@paginate_items_total_pages nat (seq 1 25) 4 10); lia.
Defined.

(** ** Filtering *)

Module ListingFacts.




End ListingFacts.

Section FilterFacts.

Variable Pattern : Type.
Variable re_compile : string -> Compile Pattern.
Variable re_search : Pattern -> string -> bool.
Variable str_upper : string -> string.

(** A condition that never raises on entries with a space. *)
Definition total_on_entries (cond : string -> Completion bool) : Prop :=
  forall ep, has_space ep = true -> exists b, cond ep = Returned b.

Lemma query_cond_total pat : total_on_entries (query_cond re_search pat).
Proof.
  intros ep H. unfold query_cond, split_1. unfold has_space in H.
  destruct (after_first_space ep); [eexists; reflexivity | discriminate].
Qed.

Lemma path_cond_total pat : total_on_entries (path_cond re_search pat).
Proof.
  intros ep H. unfold path_cond, split_1. unfold has_space in H.
  destruct (after_first_space ep); [eexists; reflexivity | discriminate].
Qed.

Lemma name_cond_total pat : total_on_entries (name_cond re_search pat).
Proof. intros ep _. eexists; reflexivity. Qed.

Lemma comprehension_total cond l :
  total_on_entries cond ->
  forallb has_space l = true ->
  exists l', comprehension cond l = Returned l' /\ forallb has_space l' = true.
Proof.
  intros Hc. induction l as [|ep l IH]; cbn; intro H.
  - now exists [].
  - apply andb_prop in H as [Hep Hl].
    destruct (Hc ep Hep) as [b ->]. destruct (IH Hl) as (l' & -> & Hl').
    destruct b; eexists; (split; [reflexivity|]); cbn; [rewrite Hep|]; auto.
Qed.

(** One filter block on well-formed entries: it stops the function
    with the error line and the empty list when its pattern is
    malformed, lets the exception through when compiling raises another
    one, and otherwise hands on well-formed entries, printing nothing. *)
Lemma filter_step_total f pattern cond filtered :
  (forall pat, total_on_entries (cond pat)) ->
  forallb has_space filtered = true ->
  (malformed re_compile pattern = true /\
   filter_step re_compile f pattern cond filtered
   = ([regex_error_line f (compile_error re_compile pattern)], inr (Returned [])))
  \/
  (escapes re_compile pattern = true /\
   exists e,
     re_compile (or_empty pattern) = CompileRaised e /\
     filter_step re_compile f pattern cond filtered = ([], inr (Raised e)))
  \/
  (uncompiled re_compile pattern = false /\
   exists filtered',
     filter_step re_compile f pattern cond filtered = ([], inl filtered') /\
     forallb has_space filtered' = true).
Proof.
  intros Hc Hf. unfold filter_step, uncompiled, malformed, escapes, compile_error.
  destruct (truthy_opt pattern); cbn [andb orb].
  - destruct (re_compile (or_empty pattern)) as [pat|msg|e].
    + right. right. split; [reflexivity|].
      destruct (@comprehension_total (cond pat) filtered (Hc pat) Hf)
        as (l' & -> & Hl').
      now exists l'.
    + left. split; reflexivity.
    + right. left. split; [reflexivity|]. now exists e.
  - right. right. split; [reflexivity|]. now exists filtered.
Qed.

Lemma forallb_filter (A : Type) (p q : A -> bool) (l : list A) :
  forallb p l = true -> forallb p (filter q l) = true.
Proof.
  induction l as [|a l IH]; cbn; [reflexivity|].
  intro H. apply andb_prop in H as [Ha Hl].
  destruct (q a); cbn; [rewrite Ha|]; auto.
Qed.

Lemma uncompiled_false pattern :
  uncompiled re_compile pattern = false ->
  malformed re_compile pattern = false /\ escapes re_compile pattern = false.
Proof. unfold uncompiled. apply orb_false_elim. Qed.

(** What the three [try] blocks are written for: on entries that all
    contain a space, when no supplied pattern makes [re.compile] raise
    anything but [re.error] and some supplied pattern is malformed, the
    call prints one line that names the first such filter with the
    compile error and returns the empty list. *)
Lemma filter_endpoints_reports_re_error :
  forall (endpoints : list string)
         (path_filter name_filter method_filter query_filter : option string),
    forallb has_space endpoints = true ->
    escapes re_compile query_filter || escapes re_compile path_filter
    || escapes re_compile name_filter
    = false ->
    malformed re_compile query_filter || malformed re_compile path_filter
    || malformed re_compile name_filter
    = true ->
    exists f : FilterField,
      first_malformed re_compile query_filter path_filter name_filter = Some f /\
      malformed re_compile (pattern_of query_filter path_filter name_filter f) = true /\
      filter_endpoints re_compile re_search str_upper
                       endpoints path_filter name_filter method_filter query_filter
      = ([regex_error_line
            f (compile_error re_compile
                 (pattern_of query_filter path_filter name_filter f))],
         Returned []).
Proof.
  intros endpoints path_filter name_filter method_filter query_filter
         Hsp Hesc Hbad.
  apply orb_false_elim in Hesc as [Hesc Hen].
  apply orb_false_elim in Hesc as [Heq Hep].
  unfold filter_endpoints, first_malformed.
  set (filtered :=
         if truthy_opt method_filter
         then filter (fun ep => startswith ep
                                 (str_upper (or_empty method_filter) ++ " "))
                     endpoints
         else endpoints).
  assert (Hf : forallb has_space filtered = true).
  { subst filtered. destruct (truthy_opt method_filter);
      [now apply forallb_filter | exact Hsp]. }
  clearbody filtered.
  destruct (@filter_step_total QueryFilter query_filter
              (query_cond re_search) filtered query_cond_total Hf)
    as [[Hq ->] | [[Hq _] | (Hq & filtered1 & -> & Hf1)]].
  { rewrite Hq. exists QueryFilter. repeat split. exact Hq. }
  { congruence. }
  apply uncompiled_false in Hq as [Hq _]. rewrite Hq in *.
  destruct (@filter_step_total PathFilter path_filter
              (path_cond re_search) filtered1 path_cond_total Hf1)
    as [[Hp ->] | [[Hp _] | (Hp & filtered2 & -> & Hf2)]].
  { rewrite Hp. exists PathFilter. repeat split. exact Hp. }
  { congruence. }
  apply uncompiled_false in Hp as [Hp _]. rewrite Hp in *.
  destruct (@filter_step_total NameFilter name_filter
              (name_cond re_search) filtered2 name_cond_total Hf2)
    as [[Hn ->] | [[Hn _] | (Hn & filtered3 & -> & Hf3)]].
  { rewrite Hn. exists NameFilter. repeat split. exact Hn. }
  { congruence. }
  apply uncompiled_false in Hn as [Hn _]. rewrite Hn in *.
  discriminate.
Qed.

End FilterFacts.

Example filter_by_method_and_path :
  ToyRe.filter_endpoints
    ["GET db/module/list [list modules]"; "GET ping"; "POST db/module/save"]
    (Some "module") None (Some "get") None
  = ([], Returned ["GET db/module/list [list modules]"]).
Proof. reflexivity. Qed.

(** An entry without a space is outside what the listing produces: the
    path filter raises [IndexError] on it. *)
Example filter_endpoints_entry_without_space :
  ToyRe.filter_endpoints ["GET"] (Some "a") None None None
  = ([], Raised IndexError).
Proof. reflexivity. Qed.

Example filter_endpoints_reports_name_filter :
  ToyRe.filter_endpoints
    ["GET db/module/list [list modules]"; "GET ping"]
    (Some "a") (Some "(") None None
  = ([regex_error_line NameFilter
        "missing ), unterminated subpattern at position 0"],
     Returned []).
Proof. reflexivity. Qed.

(** C7.  [filter_endpoints] does not turn every failure of a pattern
    into a rejection: where [re.compile] raises an exception that is
    not [re.error] (an [OverflowError] for a repetition count that is
    too large), the [except re.error] clauses do not catch it.  When
    the path pattern is such a pattern and there is no query filter,
    the exception leaves [filter_endpoints] whatever the entries, the
    method filter and the name filter are, also when the name pattern
    is malformed; no line is printed and no list is returned. *)
Theorem filter_endpoints_lets_compile_exception_through :
  forall (Pattern : Type) (re_compile : string -> Compile Pattern)
         (re_search : Pattern -> string -> bool) (str_upper : string -> string)
         (endpoints : list string)
         (path_filter name_filter method_filter : option string) (e : PyExn),
    truthy_opt path_filter = true ->
    re_compile (or_empty path_filter) = CompileRaised e ->
    filter_endpoints re_compile re_search str_upper endpoints
                     path_filter name_filter method_filter None
    = ([], Raised e).
Proof.
  intros Pattern re_compile re_search str_upper endpoints
         path_filter name_filter method_filter e Ht He.
  unfold filter_endpoints.
  change (filter_step re_compile QueryFilter None (query_cond re_search))
    with (fun filtered : list string =>
            (@nil string, @inl (list string) (Completion (list string)) filtered)).
  cbn beta iota. unfold filter_step at 1. now rewrite Ht, He.
Qed.

Lemma filter_endpoints_lets_compile_exception_through_witness :
  truthy_opt (Some "a{99999999999}") = true /\
  ToyRe.re_compile (or_empty (Some "a{99999999999}")) = CompileRaised OverflowError /\
  malformed ToyRe.re_compile (Some "(") = true /\
  forallb has_space ["GET a"] = true /\
  ToyRe.filter_endpoints ["GET a"] (Some "a{99999999999}") (Some "(") None None
  = ([], Raised OverflowError).
Proof.
  split; [reflexivity|]. split; [reflexivity|]. split; [reflexivity|].
  split; [reflexivity|].
  apply (@filter_endpoints_lets_compile_exception_through
           ToyRe.Pattern ToyRe.re_compile ToyRe.re_search ToyRe.str_upper
           ["GET a"] (Some "a{99999999999}") (Some "(") None OverflowError);
    reflexivity.
Defined.

(** ** The search client *)

Module SliceFacts.


End SliceFacts.

Section SearchFacts.

Variables Item Other : Type.
Variable slice_other : Other -> Z -> Completion Other.




End SearchFacts.


Example search_limit_2 :
  run_call (AsciiText.search SearchSamples.base_url "TODO" 2) SearchSamples.backend
  = ([], Returned (Items [10; 20]%nat)).
Proof. reflexivity. Qed.

Example search_limit_0 :
  run_call (AsciiText.search SearchSamples.base_url "TODO" 0) SearchSamples.backend
  = ([], Returned (Items [10; 20; 30]%nat)).
Proof. reflexivity. Qed.

Example search_blank_keyword :
  run_call (AsciiText.search SearchSamples.base_url "  " 2) SearchSamples.backend
  = (["❌ 搜索关键词不能为空"], Returned (Items [])).
Proof. reflexivity. Qed.

Example search_todo_error_code :
  run_call (AsciiText.search_todo SearchSamples.base_url 2) SearchSamples.backend
  = (["❌ API 返回错误: no scripts"], Returned (Items [])).
Proof. reflexivity. Qed.

Example search_other_keyword_refused :
  run_call (AsciiText.search SearchSamples.base_url "FIXME" 2) SearchSamples.backend
  = (["❌ 请求异常: connection refused"], Returned (Items [])).
Proof. reflexivity. Qed.

(** With [data] null, [results[:limit]] raises when the limit is
    positive, and [None] is returned otherwise. *)
Example search_null_data_limit_2 :
  run_call (AsciiText.search SearchSamples.base_url "TODO" 2)
           SearchSamples.null_backend
  = ([], Raised TypeError).
Proof. reflexivity. Qed.

Example search_null_data_limit_0 :
  run_call (AsciiText.search SearchSamples.base_url "TODO" 0)
           SearchSamples.null_backend
  = ([], Returned (NotAList tt)).
Proof. reflexivity. Qed.


(** * Further properties of the same code *)

(** ** Normalisation in terms of segments *)

Module SegmentFacts.

(** The first piece of a split and the non-empty pieces after it. *)
Definition hd_piece (s : string) : string := hd "" (split_on is_slash s).

Definition tl_segments (s : string) : list string :=
  filter truthy (tl (split_on is_slash s)).

Definition shape (s : string) : string * list string :=
  (hd_piece s, tl_segments s).

Lemma split_on_cons f s : split_on f s = hd "" (split_on f s) :: tl (split_on f s).
Proof.
  destruct s as [|c r]; cbn; [reflexivity|].
  destruct (f c); [reflexivity|]. destruct (split_on f r); reflexivity.
Qed.

Lemma split_on_step c r :
  split_on is_slash (String c r)
  = if is_slash c then "" :: split_on is_slash r
    else String c (hd_piece r) :: tl (split_on is_slash r).
Proof.
  cbn [split_on]. destruct (is_slash c); [reflexivity|].
  unfold hd_piece. rewrite (split_on_cons is_slash r) at 1. reflexivity.
Qed.

Lemma segments_shape s :
  segments s = filter truthy [hd_piece s] ++ tl_segments s.
Proof.
  unfold segments, tl_segments, hd_piece.
  rewrite (split_on_cons is_slash s) at 1. cbn [filter app].
  destruct (truthy _); reflexivity.
Qed.

Lemma shape_step c r :
  shape (String c r)
  = if is_slash c then ("", segments r)
    else (String c (hd_piece r), tl_segments r).
Proof.
  unfold shape, hd_piece, tl_segments. rewrite split_on_step.
  destruct (is_slash c); reflexivity.
Qed.

Lemma shape_cons_congr c r1 r2 :
  shape r1 = shape r2 -> shape (String c r1) = shape (String c r2).
Proof.
  intro H. rewrite !shape_step, !segments_shape.
  injection H as -> ->. reflexivity.
Qed.

Lemma segments_of_shape s1 s2 : shape s1 = shape s2 -> segments s1 = segments s2.
Proof. intro H. rewrite !segments_shape. injection H as -> ->. reflexivity. Qed.

Lemma segments_slash_cons c r :
  is_slash c = true -> segments (String c r) = segments r.
Proof.
  intro H. unfold segments at 1. rewrite split_on_step, H. reflexivity.
Qed.

Lemma shape_replace s : shape (replace_dslash s) = shape s.
Proof.
  induction s as [|c|c c' r IHr IHc'] using PathFacts.string_pair_ind;
    try reflexivity.
  rewrite PathFacts.replace_dslash_cons2.
  destruct (is_slash c && is_slash c') eqn:Hcc.
  - apply andb_prop in Hcc as [Hc Hc'].
    rewrite (shape_step slash), (shape_step c), Hc.
    change (is_slash slash) with true. cbn iota.
    rewrite (@segments_slash_cons c' r Hc').
    f_equal. now apply segments_of_shape.
  - now apply shape_cons_congr.
Qed.

Lemma shape_collapse s : shape (collapse_slashes s) = shape s.
Proof.
  funelim (collapse_slashes s); [|reflexivity].
  rewrite H. apply shape_replace.
Qed.

Lemma segments_lstrip s : segments (lstrip_slash s) = segments s.
Proof.
  induction s as [|c r IH]; [reflexivity|]. cbn [lstrip_slash].
  destruct (is_slash c) eqn:Hc; [|reflexivity].
  now rewrite IH, (@segments_slash_cons c r Hc).
Qed.

Lemma shape_rstrip s : shape (rstrip_slash s) = shape s.
Proof.
  induction s as [|c r IH]; [reflexivity|]. cbn [rstrip_slash].
  destruct (rstrip_slash r) as [|d r'] eqn:E.
  - assert (Hr : shape r = ("", [])) by (rewrite <- IH; reflexivity).
    rewrite shape_step, segments_shape.
    injection Hr as Hh Ht. rewrite Hh, Ht.
    destruct (is_slash c) eqn:Hc; [reflexivity|].
    rewrite shape_step, Hc. reflexivity.
  - now apply shape_cons_congr.
Qed.

Lemma segments_strip s : segments (strip_slash s) = segments s.
Proof.
  unfold strip_slash.
  rewrite (segments_of_shape (shape_rstrip _)). apply segments_lstrip.
Qed.

Lemma segments_normalize p : segments (normalize_path p) = segments p.
Proof.
  unfold normalize_path. destruct p as [|c r]; [reflexivity|].
  cbn [truthy negb].
  rewrite (segments_of_shape (shape_collapse _)). apply segments_strip.
Qed.

Lemma is_slash_eq c : is_slash c = true -> c = slash.
Proof. unfold is_slash. apply Ascii.eqb_eq. Qed.

Lemma concat_cons2 sep x y l :
  String.concat sep (x :: y :: l) = (x ++ sep ++ String.concat sep (y :: l))%string.
Proof. reflexivity. Qed.

(** Joining the pieces of a split gives the string back. *)
Lemma concat_split s : String.concat "/" (split_on is_slash s) = s.
Proof.
  induction s as [|c r IH]; [reflexivity|].
  rewrite split_on_step. destruct (is_slash c) eqn:Hc.
  - rewrite (split_on_cons is_slash r), concat_cons2,
      <- (split_on_cons is_slash r), IH.
    now rewrite (is_slash_eq _ Hc).
  - rewrite (split_on_cons is_slash r) in IH. unfold hd_piece.
    destruct (tl (split_on is_slash r)) as [|y l].
    + cbn in *. now rewrite IH.
    + rewrite concat_cons2. rewrite concat_cons2 in IH.
      rewrite <- IH at 2. reflexivity.
Qed.

(** Without a doubled or a final slash, every piece after the first is
    non-empty, and so is the first unless the string is empty or starts
    with a slash. *)
Lemma pieces_nonempty s :
  has_dslash s = false -> ends_slash s = false ->
  forallb truthy (tl (split_on is_slash s)) = true /\
  (starts_slash s = false -> s <> "" -> truthy (hd_piece s) = true).
Proof.
  induction s as [|c r IH]; intros Hd He.
  - split; [reflexivity | congruence].
  - destruct r as [|c' r'].
    + cbn in He. cbn. unfold hd_piece. cbn. rewrite He. now split.
    + assert (Hd' : has_dslash (String c' r') = false /\
                    (is_slash c && is_slash c') = false).
      { change (has_dslash (String c (String c' r')))
          with ((is_slash c && is_slash c') || has_dslash (String c' r')) in Hd.
        apply orb_false_elim in Hd as [H1 H2]. now split. }
      destruct Hd' as [Hdr Hcc].
      change (ends_slash (String c (String c' r')))
        with (ends_slash (String c' r')) in He.
      destruct (IH Hdr He) as [Htl Hhd].
      pose proof (split_on_step c (String c' r')) as Hsplit.
      destruct (is_slash c) eqn:Hc; cbn [andb] in Hcc.
      * split; [|cbn [starts_slash]; congruence].
        rewrite Hsplit. cbn [tl].
        rewrite (split_on_cons is_slash (String c' r')). cbn [forallb].
        rewrite Htl, andb_true_r. apply Hhd; [exact Hcc | discriminate].
      * split; [rewrite Hsplit; exact Htl|].
        intros _ _. unfold hd_piece. rewrite Hsplit. reflexivity.
Qed.

Lemma filter_all (A : Type) (p : A -> bool) (l : list A) :
  forallb p l = true -> filter p l = l.
Proof.
  induction l as [|a l IH]; cbn; [reflexivity|].
  intro H. apply andb_prop in H as [-> Hl]. now rewrite IH.
Qed.

(** A path in normal form is its segments joined by single slashes. *)
Lemma normal_concat_segments s : normal s -> String.concat "/" (segments s) = s.
Proof.
  intros (Hs & He & Hd). destruct s as [|c r]; [reflexivity|].
  destruct (@pieces_nonempty (String c r) Hd He) as [Htl Hhd].
  specialize (Hhd Hs ltac:(discriminate)).
  unfold segments. rewrite filter_all; [apply concat_split|].
  rewrite (split_on_cons is_slash (String c r)). cbn [forallb].
  fold (hd_piece (String c r)). now rewrite Hhd, Htl.
Qed.

Lemma normalize_path_segments p :
  normalize_path p = String.concat "/" (segments p).
Proof.
  rewrite <- (segments_normalize p).
  symmetry. apply normal_concat_segments, PathFacts.normalize_path_normal.
Qed.

End SegmentFacts.

(** ** Full paths and targets in terms of segments *)

Module WalkFacts.

Import SegmentFacts.

Lemma split_on_app_slash a b :
  split_on is_slash (a ++ "/" ++ b) = split_on is_slash a ++ split_on is_slash b.
Proof.
  induction a as [|c a IH]; [reflexivity|].
  change ((String c a ++ "/" ++ b)%string) with (String c (a ++ "/" ++ b)).
  cbn [split_on]. rewrite IH. destruct (is_slash c); [reflexivity|].
  rewrite (split_on_cons is_slash a). reflexivity.
Qed.

Lemma segments_app_slash a b :
  segments (a ++ "/" ++ b) = segments a ++ segments b.
Proof. unfold segments. now rewrite split_on_app_slash, filter_app. Qed.

Lemma clean_path_segments p : clean_path p = String.concat "/" (segments p).
Proof. apply normalize_path_segments. Qed.

(** The path built for a node from its parent's path and its own fragment. *)
Lemma full_path_segments parent_path current_path :
  clean_path (join_path parent_path current_path)
  = String.concat "/" (segments parent_path ++ segments current_path).
Proof.
  rewrite clean_path_segments. f_equal. unfold join_path.
  destruct current_path as [|c cr], parent_path as [|p pr]; cbn [truthy andb].
  - reflexivity.
  - now rewrite app_nil_r.
  - reflexivity.
  - apply segments_app_slash.
Qed.

(** A segment: not empty and without a slash. *)
Definition is_segment (x : string) : bool :=
  truthy x && negb (contains_char slash x).

Lemma pieces_slash_free s :
  forallb (fun x => negb (contains_char slash x)) (split_on is_slash s) = true.
Proof.
  induction s as [|c r IH]; [reflexivity|].
  rewrite split_on_step. destruct (is_slash c) eqn:Hc; cbn [forallb].
  - exact IH.
  - rewrite (split_on_cons is_slash r) in IH. cbn [forallb] in IH.
    apply andb_prop in IH as [Hh Ht]. fold (hd_piece r) in Hh.
    cbn [contains_char]. fold (is_slash c). rewrite Hc. cbn [orb].
    now rewrite Hh, Ht.
Qed.

Lemma segments_are_segments s : forallb is_segment (segments s) = true.
Proof.
  unfold segments. pose proof (pieces_slash_free s) as H.
  induction (split_on is_slash s) as [|x l IH]; [reflexivity|].
  cbn [forallb] in H. apply andb_prop in H as [Hx Hl]. cbn [filter].
  destruct (truthy x) eqn:Ht; [|now apply IH].
  cbn [forallb]. unfold is_segment at 1. now rewrite Ht, Hx, IH.
Qed.

Lemma split_on_slash_free x :
  contains_char slash x = false -> split_on is_slash x = [x].
Proof.
  induction x as [|c r IH]; [reflexivity|]. cbn [contains_char split_on].
  fold (is_slash c). intro H. apply orb_false_elim in H as [Hc Hr].
  now rewrite Hc, (IH Hr).
Qed.

Lemma segments_of_segment x : is_segment x = true -> segments x = [x].
Proof.
  unfold is_segment. intro H. apply andb_prop in H as [Ht Hs].
  apply negb_true_iff in Hs.
  unfold segments. rewrite (split_on_slash_free _ Hs). cbn. now rewrite Ht.
Qed.

(** Splitting a join of segments gives the segments back. *)
Lemma segments_concat l :
  forallb is_segment l = true -> segments (String.concat "/" l) = l.
Proof.
  induction l as [|x l IH]; [reflexivity|]. cbn [forallb].
  intro H. apply andb_prop in H as [Hx Hl].
  destruct l as [|y l].
  - now apply segments_of_segment.
  - rewrite concat_cons2, segments_app_slash, (IH Hl).
    now rewrite (segments_of_segment _ Hx).
Qed.

Lemma forallb_flat_map (A B : Type) (p : B -> bool) (f : A -> list B) l :
  (forall a, forallb p (f a) = true) -> forallb p (flat_map f l) = true.
Proof.
  intro H. induction l as [|a l IH]; [reflexivity|].
  cbn [flat_map]. now rewrite forallb_app, H, IH.
Qed.

Lemma segments_joined trail :
  segments (joined_segments trail) = flat_map segments trail.
Proof.
  apply segments_concat, forallb_flat_map, segments_are_segments.
Qed.

(** The path the walks compute for a node is the join of the segments
    of the fragments above it. *)
Lemma preorder_joined n :
  forall trail,
    preorder n (joined_segments trail)
    = map with_full_path (preorder_trail n trail).
Proof.
  induction n as [node_info children IH] using TreeFacts.Node_ind_forall.
  intro trail. cbn [preorder preorder_trail map].
  assert (Hfull : clean_path (join_path (joined_segments trail) (path node_info))
                  = joined_segments (trail ++ [path node_info])).
  { rewrite full_path_segments, segments_joined. unfold joined_segments.
    rewrite flat_map_app. cbn [flat_map]. now rewrite app_nil_r. }
  rewrite Hfull. f_equal.
  induction IH as [|c cs Hc _ IHcs]; [reflexivity|].
  cbn [flat_map]. now rewrite map_app, Hc, IHcs.
Qed.

Lemma preorder_forest_joined api_children :
  preorder_forest api_children = map with_full_path (trail_forest api_children).
Proof.
  unfold preorder_forest, trail_forest.
  induction api_children as [|c cs IH]; [reflexivity|].
  cbn [flat_map]. rewrite map_app, <- IH. f_equal.
  apply (preorder_joined c []).
Qed.

End WalkFacts.

Module TargetFacts.

Import SegmentFacts.

Lemma startswith_slash s : startswith s "/" = starts_slash s.
Proof.
  destruct s as [|b r]; [reflexivity|].
  cbn [startswith starts_slash]. unfold is_slash, slash.
  destruct r; cbn [startswith]; now rewrite andb_true_r, Ascii.eqb_sym.
Qed.

Lemma startswith_empty p : startswith "" (p ++ "/") = false.
Proof. destruct p; reflexivity. Qed.

Lemma truthy_false s : truthy s = false -> s = "".
Proof. destruct s; [reflexivity | discriminate]. Qed.

Lemma normalize_path_empty_iff t : normalize_path t = "" <-> segments t = [].
Proof.
  split; intro H.
  - rewrite <- (segments_normalize t), H. reflexivity.
  - now rewrite normalize_path_segments, H.
Qed.

(** The paths the walks compute are in normal form. *)
Lemma preorder_paths_normal n :
  forall parent_path, Forall (fun e => normal (snd e)) (preorder n parent_path).
Proof.
  induction n as [node_info children IH] using TreeFacts.Node_ind_forall.
  intro parent_path. cbn [preorder]. constructor.
  - cbn [snd]. apply (PathFacts.normalize_path_normal _).
  - induction IH as [|c cs Hc _ IHcs]; [constructor|].
    cbn [flat_map]. apply Forall_app. split; [apply Hc | exact IHcs].
Qed.

Lemma code_selects_same_target t1 t2 e :
  normalize_path t1 = normalize_path t2 -> code_selects t1 e = code_selects t2 e.
Proof. unfold code_selects. now intros ->. Qed.

Lemma code_selects_empty_target t e :
  normalize_path t = "" -> normal (snd e) -> code_selects t e = false.
Proof.
  intros Ht Hn. unfold code_selects. rewrite Ht.
  rewrite (PathFacts.normalize_path_fixed Hn).
  destruct (snd e) as [|c r] eqn:E; [now rewrite andb_false_r|].
  unfold path_matches. cbn [append].
  rewrite startswith_slash. destruct Hn as (Hs & _ & _). rewrite Hs.
  cbn. now rewrite !andb_false_r.
Qed.

Lemma spec_selects_nonempty_target t e :
  normalize_path t <> "" -> spec_selects t e = code_selects t e.
Proof.
  intro Ht. unfold spec_selects, code_selects.
  destruct (truthy (snd e)) eqn:E; [now rewrite andb_true_r|].
  rewrite andb_false_r. cbn [andb].
  rewrite (truthy_false _ E).
  change (normalize_path "") with "". unfold path_matches.
  rewrite startswith_empty. cbn [append]. rewrite startswith_slash.
  destruct (PathFacts.normalize_path_normal t) as (Hs & _ & _). rewrite Hs.
  destruct (normalize_path t); [congruence|]. cbn. apply andb_false_r.
Qed.

Lemma filter_ext_Forall (A : Type) (p q : A -> bool) (P : A -> Prop) l :
  Forall P l -> (forall a, P a -> p a = q a) -> filter p l = filter q l.
Proof.
  intros Hl H. induction Hl as [|a l Ha _ IH]; [reflexivity|].
  cbn. now rewrite (H a Ha), IH.
Qed.

Lemma filter_false_Forall (A : Type) (p : A -> bool) (P : A -> Prop) l :
  Forall P l -> (forall a, P a -> p a = false) -> filter p l = [].
Proof.
  intros Hl H. induction Hl as [|a l Ha _ IH]; [reflexivity|].
  cbn. now rewrite (H a Ha).
Qed.

Lemma preorder_forest_paths_normal api_children :
  Forall (fun e => normal (snd e)) (preorder_forest api_children).
Proof.
  unfold preorder_forest. induction api_children as [|c cs IH]; [constructor|].
  cbn [flat_map]. apply Forall_app. split; [apply preorder_paths_normal | exact IH].
Qed.

End TargetFacts.

(** X1.  [normalize_path] and [clean_path] return the non-empty pieces
    between the slashes of their argument, joined by single slashes. *)
Theorem normalize_path_joins_segments :
  forall p : string,
    normalize_path p = String.concat "/" (segments p) /\
    clean_path p = String.concat "/" (segments p).
Proof.
  intro p. split; apply SegmentFacts.normalize_path_segments.
Qed.

(** X2.  Two targets with the same segments (they differ only in
    leading, trailing or repeated slashes) give the same matches. *)
Theorem find_api_by_path_same_segments :
  forall t1 t2 : string,
    segments t1 = segments t2 ->
    (forall (n : Node) (parent_path : string) (results : list Match),
        find_api_by_path n t1 parent_path results
        = find_api_by_path n t2 parent_path results) /\
    (forall source : Loaded,
        find_api_id_by_path source t1 = find_api_id_by_path source t2).
Proof.
  intros t1 t2 H.
  assert (Hn : normalize_path t1 = normalize_path t2)
    by (rewrite !SegmentFacts.normalize_path_segments; now rewrite H).
  assert (Hf : forall l, filter (code_selects t1) l = filter (code_selects t2) l).
  { intro l. apply filter_ext. intro e.
    now apply TargetFacts.code_selects_same_target. }
  split.
  - intros. rewrite !TreeFacts.find_api_by_path_preorder. now rewrite Hf.
  - intros [cs|e]; [|reflexivity]. unfold find_api_id_by_path.
    rewrite !TreeFacts.find_forest. now rewrite Hf.
Qed.

Lemma find_api_by_path_same_segments_witness :
  segments "db//module/" = segments "/db/module" /\
  (forall (n : Node) (parent_path : string) (results : list Match),
      find_api_by_path n "db//module/" parent_path results
      = find_api_by_path n "/db/module" parent_path results) /\
  (forall source : Loaded,
      find_api_id_by_path source "db//module/"
      = find_api_id_by_path source "/db/module").
Proof.
  split; [reflexivity|].
  apply (find_api_by_path_same_segments "db//module/" "/db/module").
  reflexivity.
Defined.

(** X3.  The full path that both walks give a node is the segments of
    the [path] fragments from the top of the tree down to the node,
    joined by single slashes: the listing and the lookup are the ones
    computed from those joined paths. *)
Theorem full_path_is_joined_segments :
  forall (api_children : list Node),
    traverse_forest api_children
    = map to_line
          (filter listed
                  (map with_full_path
                       (trail_forest api_children))) /\
    (forall target_path : string,
        find_api_id_by_path (ApiChildren api_children) target_path
        = Returned
            (map to_match
                 (filter (code_selects target_path)
                         (map with_full_path
                              (trail_forest api_children))))).
Proof.
  intro api_children. split.
  - rewrite TreeFacts.traverse_forest_preorder.
    now rewrite WalkFacts.preorder_forest_joined.
  - intro target_path. unfold find_api_id_by_path.
    rewrite TreeFacts.find_forest. now rewrite WalkFacts.preorder_forest_joined.
Qed.

(** X4.  A target without segments (empty, or slashes only) matches no
    endpoint: the walk leaves [results] as it is and the lookup returns
    the empty list. *)
Theorem find_api_by_path_empty_target :
  forall t : string,
    segments t = [] ->
    (forall (n : Node) (parent_path : string) (results : list Match),
        find_api_by_path n t parent_path results = results) /\
    (forall api_children : list Node,
        find_api_id_by_path (ApiChildren api_children) t = Returned []).
Proof.
  intros t H. apply TargetFacts.normalize_path_empty_iff in H.
  split.
  - intros n parent_path results. rewrite TreeFacts.find_api_by_path_preorder.
    rewrite (TargetFacts.filter_false_Forall
               (code_selects t) (TargetFacts.preorder_paths_normal n parent_path)).
    + apply app_nil_r.
    + intros e He. now apply TargetFacts.code_selects_empty_target.
  - intro api_children. unfold find_api_id_by_path.
    rewrite TreeFacts.find_forest.
    rewrite (TargetFacts.filter_false_Forall
               (code_selects t)
               (TargetFacts.preorder_forest_paths_normal api_children)).
    + reflexivity.
    + intros e He. now apply TargetFacts.code_selects_empty_target.
Qed.

Lemma find_api_by_path_empty_target_witness :
  segments "//" = [] /\
  (forall (n : Node) (parent_path : string) (results : list Match),
      find_api_by_path n "//" parent_path results = results) /\
  (forall api_children : list Node,
      find_api_id_by_path (ApiChildren api_children) "//" = Returned []).
Proof.
  split; [reflexivity|].
  apply (find_api_by_path_empty_target "//"). reflexivity.
Defined.

(** X5.  Every match that the lookup returns has a non-empty id, a
    non-empty method and a non-empty path in normal form (no slash at
    either end, no doubled slash). *)
Theorem find_api_by_path_matches_well_formed :
  forall (n : Node) (target_path parent_path : string),
    Forall well_formed_match (find_api_by_path n target_path parent_path []).
Proof.
  intros n target_path parent_path.
  rewrite TreeFacts.find_api_by_path_preorder. cbn [app].
  pose proof (TargetFacts.preorder_paths_normal n parent_path) as Hn.
  induction Hn as [|e l He _ IH]; [constructor|].
  cbn [filter]. destruct (code_selects target_path e) eqn:Hsel; [|exact IH].
  cbn [map]. constructor; [|exact IH].
  unfold code_selects, has_method_and_id in Hsel.
  apply andb_prop in Hsel as [Hsel _]. apply andb_prop in Hsel as [Hsel Hp].
  apply andb_prop in Hsel as [Hm Hi].
  unfold well_formed_match, to_match. cbn [match_id match_method match_path].
  destruct (method (fst e)), (id (fst e)); try discriminate.
  repeat split; assumption || apply He.
Qed.

(** X6.  For a target with at least one segment the lookup returns
    exactly the nodes that have a method and an id and pass the
    three-way test on normalised paths; the guard on the full path only
    matters for targets without segments. *)
Theorem find_api_by_path_follows_policy :
  forall t : string,
    segments t <> [] ->
    forall (n : Node) (parent_path : string) (results : list Match),
      find_api_by_path n t parent_path results
      = results ++ map to_match
                       (filter (spec_selects t) (preorder n parent_path)).
Proof.
  intros t H n parent_path results.
  rewrite TreeFacts.find_api_by_path_preorder. do 2 f_equal.
  apply filter_ext. intro e. symmetry.
  apply TargetFacts.spec_selects_nonempty_target.
  intro Hn. apply H. now apply TargetFacts.normalize_path_empty_iff.
Qed.

Lemma find_api_by_path_follows_policy_witness :
  segments "/db/module" <> [] /\
  forall (n : Node) (parent_path : string) (results : list Match),
    find_api_by_path n "/db/module" parent_path results
    = results ++ map to_match
                     (filter (spec_selects "/db/module") (preorder n parent_path)).
Proof.
  split; [discriminate|].
  apply (find_api_by_path_follows_policy "/db/module"). discriminate.
Defined.

(** ** Reading the listing back: the CSV rows *)

Module CsvFacts.

Definition space : ascii := " "%char.

Lemma split_once_append m rest :
  contains_char space m = false ->
  split_once (m ++ " " ++ rest) = Some (m, rest).
Proof.
  induction m as [|c m IH]; [reflexivity|].
  cbn [contains_char]. intro H. apply orb_false_elim in H as [Hc Hm].
  change ((String c m ++ " " ++ rest)%string) with (String c (m ++ " " ++ rest)).
  cbn [split_once]. unfold space in Hc. now rewrite Hc, (IH Hm).
Qed.

Lemma split_once_none s : contains_char space s = false -> split_once s = None.
Proof.
  induction s as [|c s IH]; [reflexivity|].
  cbn [contains_char split_once]. intro H. apply orb_false_elim in H as [Hc Hs].
  unfold space in Hc. now rewrite Hc, (IH Hs).
Qed.


Lemma endswith_char_last c s : endswith_char c (s ++ String c "") = true.
Proof.
  induction s as [|a s IH]; [cbn; apply Ascii.eqb_refl|].
  change ((String a s ++ String c "")%string) with (String a (s ++ String c "")).
  cbn [endswith_char]. destruct (s ++ String c "")%string eqn:E; [|exact IH].
  destruct s; discriminate.
Qed.

Lemma drop_last_last c s : drop_last (s ++ String c "") = s.
Proof.
  induction s as [|a s IH]; [reflexivity|].
  change ((String a s ++ String c "")%string) with (String a (s ++ String c "")).
  cbn [drop_last]. destruct (s ++ String c "")%string eqn:E.
  - destruct s; discriminate.
  - now rewrite IH.
Qed.



(** Doubling the quotes loses nothing. *)
Lemma double_quotes_inj f1 :
  forall f2, double_quotes f1 = double_quotes f2 -> f1 = f2.
Proof.
  induction f1 as [|c1 r1 IH]; intros [|c2 r2]; cbn [double_quotes].
  - reflexivity.
  - destruct (Ascii.eqb c2 dquote); discriminate.
  - destruct (Ascii.eqb c1 dquote); discriminate.
  - destruct (Ascii.eqb c1 dquote) eqn:E1, (Ascii.eqb c2 dquote) eqn:E2; intro H.
    + apply Ascii.eqb_eq in E1, E2. subst.
      injection H as H. now rewrite (IH _ H).
    + injection H as Hc _. subst c2. now rewrite Ascii.eqb_refl in E2.
    + injection H as Hc _. subst c1. now rewrite Ascii.eqb_refl in E1.
    + injection H as -> H. now rewrite (IH _ H).
Qed.

Lemma append_length a b :
  String.length (a ++ b) = (String.length a + String.length b)%nat.
Proof. induction a as [|c a IH]; cbn; [reflexivity | now rewrite IH]. Qed.

Lemma append_inv_tail a :
  forall b t, (a ++ t)%string = (b ++ t)%string -> a = b.
Proof.
  induction a as [|c a IH]; intros [|d b] t H.
  - reflexivity.
  - apply (f_equal String.length) in H. cbn in H. rewrite append_length in H. lia.
  - apply (f_equal String.length) in H. cbn in H. rewrite append_length in H. lia.
  - cbn in H. injection H as -> H. now rewrite (IH _ _ H).
Qed.

Definition needs_quotes (field : string) : bool :=
  contains_char ","%char field || contains_char dquote field
  || contains_char newline field.

Lemma needs_quotes_no_dquote field :
  needs_quotes field = false -> contains_char dquote field = false.
Proof.
  unfold needs_quotes. intro H.
  apply orb_false_elim in H as [H _]. now apply orb_false_elim in H as [_ H].
Qed.

End CsvFacts.

(** X7.  Reading a line of the listing back, as the CSV output does,
    recovers the method, the path and the name that was shown, provided
    the method and the path contain no space. *)
Theorem parse_endpoint_format_endpoint :
  forall m full_path current_name current_path : string,
    contains_char " "%char m = false ->
    contains_char " "%char full_path = false ->
    parse_endpoint (format_endpoint m full_path current_name current_path)
    = Returned (m, full_path,
                if truthy current_name
                   && negb (String.eqb current_name current_path)
                then current_name else "").
Proof.
  intros m full_path current_name current_path Hm Hp.
  unfold format_endpoint, parse_endpoint, split_2.
  destruct (truthy current_name && negb (current_name =? current_path)%string).
  - rewrite (@CsvFacts.split_once_append m _ Hm).
    change ((full_path ++ " [" ++ current_name ++ "]")%string)
      with ((full_path ++ " " ++ String "[" (current_name ++ "]"))%string).
    rewrite (@CsvFacts.split_once_append full_path _ Hp).
    cbn [startswith_char strip_ends]. rewrite Ascii.eqb_refl. cbn [andb].
    rewrite CsvFacts.drop_last_last.
    assert (He : endswith_char "]" (String "[" (current_name ++ "]")) = true).
    { cbn [endswith_char].
      destruct (current_name ++ "]")%string eqn:E.
      - destruct current_name; discriminate.
      - rewrite <- E. apply CsvFacts.endswith_char_last. }
    now rewrite He.
  - rewrite (@CsvFacts.split_once_append m _ Hm).
    now rewrite (@CsvFacts.split_once_none full_path Hp).
Qed.

Lemma parse_endpoint_format_endpoint_witness :
  contains_char " "%char "GET" = false /\
  contains_char " "%char "db/module/list" = false /\
  parse_endpoint (format_endpoint "GET" "db/module/list" "list modules" "list")
  = Returned ("GET", "db/module/list",
              if truthy "list modules" && negb (String.eqb "list modules" "list")
              then "list modules" else "").
Proof.
  split; [reflexivity|]. split; [reflexivity|].
  apply (parse_endpoint_format_endpoint "GET" "db/module/list" "list modules" "list");
    reflexivity.
Defined.

(** X8.  [escape_csv_field] never maps two different fields to the same
    text. *)
Theorem escape_csv_field_injective :
  forall f1 f2 : string,
    f1 <> f2 -> escape_csv_field f1 <> escape_csv_field f2.
Proof.
  intros f1 f2 Hne H. apply Hne. revert H. unfold escape_csv_field.
  fold (CsvFacts.needs_quotes f1). fold (CsvFacts.needs_quotes f2).
  destruct (CsvFacts.needs_quotes f1) eqn:E1, (CsvFacts.needs_quotes f2) eqn:E2;
    intro H.
  - injection H as H. apply CsvFacts.append_inv_tail in H.
    now apply CsvFacts.double_quotes_inj.
  - apply CsvFacts.needs_quotes_no_dquote in E2. rewrite <- H in E2.
    cbn [contains_char] in E2. now rewrite Ascii.eqb_refl in E2.
  - apply CsvFacts.needs_quotes_no_dquote in E1. rewrite H in E1.
    cbn [contains_char] in E1. now rewrite Ascii.eqb_refl in E1.
  - exact H.
Qed.

Lemma escape_csv_field_injective_witness :
  "a,b" <> "a b" /\ escape_csv_field "a,b" <> escape_csv_field "a b".
Proof.
  split; [discriminate|].
  apply (@escape_csv_field_injective "a,b" "a b"). discriminate.
Defined.

Example escape_csv_field_quote :
  escape_csv_field (String "a" (String dquote "b"))
  = String dquote (String "a" (String dquote (String dquote (String "b" (String dquote ""))))).
Proof. reflexivity. Qed.

(** ** More on [filter_endpoints] *)

Module SubseqFacts.

Lemma Subseq_refl (A : Type) (l : list A) : Subseq l l.
Proof. induction l; constructor; assumption. Qed.

Lemma Subseq_nil_l (A : Type) (l : list A) : Subseq [] l.
Proof. induction l; constructor; assumption. Qed.

Lemma Subseq_trans (A : Type) (l3 : list A) :
  forall l1 l2, Subseq l1 l2 -> Subseq l2 l3 -> Subseq l1 l3.
Proof.
  induction l3 as [|x l3 IH]; intros l1 l2 H12 H23.
  - inversion H23; subst. exact H12.
  - inversion H23; subst.
    + constructor. eapply IH; eassumption.
    + inversion H12; subst.
      * apply Subseq_skip. eapply IH; eassumption.
      * apply Subseq_keep. eapply IH; eassumption.
Qed.

Lemma Subseq_filter (A : Type) (p : A -> bool) (l : list A) :
  Subseq (filter p l) l.
Proof.
  induction l as [|a l IH]; cbn; [constructor|].
  destruct (p a); constructor; exact IH.
Qed.

Lemma Subseq_In (A : Type) (r l : list A) :
  Subseq r l -> forall x, In x r -> In x l.
Proof.
  induction 1 as [|y r l _ IH|y r l _ IH]; intros x Hx.
  - exact Hx.
  - right. now apply IH.
  - destruct Hx as [->|Hx]; [now left | right; now apply IH].
Qed.

Lemma Subseq_comprehension cond l :
  forall r, comprehension cond l = Returned r -> Subseq r l.
Proof.
  induction l as [|ep l IH]; cbn [comprehension]; intros r H.
  - injection H as <-. constructor.
  - destruct (cond ep) as [b| |]; try discriminate.
    destruct (comprehension cond l) as [r'| |]; try discriminate.
    injection H as <-. specialize (IH r' eq_refl).
    destruct b; constructor; exact IH.
Qed.

End SubseqFacts.

Section FilterMore.

Variable Pattern : Type.
Variable re_compile : string -> Compile Pattern.
Variable re_search : Pattern -> string -> bool.
Variable str_upper : string -> string.

(** One filter block hands on some of the entries it got, in order, or
    ends the function with the empty list or an exception. *)
Lemma filter_step_subseq f pattern cond filtered out res :
  filter_step re_compile f pattern cond filtered = (out, res) ->
  match res with
  | inl filtered' => Subseq filtered' filtered
  | inr (Returned r) => r = []
  | inr _ => True
  end.
Proof.
  unfold filter_step.
  destruct (truthy_opt pattern).
  - destruct (re_compile (or_empty pattern)) as [pat|msg|e].
    + destruct (comprehension (cond pat) filtered) as [r| |] eqn:E;
        intro H; injection H as _ <-; [|exact I|exact I].
      now apply SubseqFacts.Subseq_comprehension with (cond := cond pat).
    + intro H. injection H as _ <-. reflexivity.
    + intro H. injection H as _ <-. exact I.
  - intro H. injection H as _ <-. apply SubseqFacts.Subseq_refl.
Qed.



End FilterMore.



Example csv_rows_db_tree :
  csv_rows ["GET db/module/list [list modules]"; "GET ping"]
  = Returned ["GET,db/module/list,list modules"; "GET,ping,"].
Proof. reflexivity. Qed.

(** X10.  Whatever the filters and the engine, the list that
    [filter_endpoints] returns keeps entries of the list it was given,
    in their order, and with a method filter every kept entry starts
    with the upper-cased method and a space. *)
Theorem filter_endpoints_keeps_order :
  forall (Pattern : Type) (re_compile : string -> Compile Pattern)
         (re_search : Pattern -> string -> bool) (str_upper : string -> string)
         (endpoints : list string)
         (path_filter name_filter method_filter query_filter : option string)
         (out r : list string),
    filter_endpoints re_compile re_search str_upper endpoints
                     path_filter name_filter method_filter query_filter
    = (out, Returned r) ->
    Subseq r endpoints /\
    (truthy_opt method_filter = true ->
     Forall (fun ep =>
               startswith ep (str_upper (or_empty method_filter) ++ " ") = true)
            r).
Proof.
  intros Pattern re_compile re_search str_upper endpoints
         path_filter name_filter method_filter query_filter out r.
  unfold filter_endpoints.
  set (keep := fun ep =>
                 startswith ep (str_upper (or_empty method_filter) ++ " ")).
  set (filtered := if truthy_opt method_filter
                   then filter keep endpoints else endpoints).
  assert (H0 : Subseq filtered endpoints).
  { subst filtered. destruct (truthy_opt method_filter);
      [apply SubseqFacts.Subseq_filter | apply SubseqFacts.Subseq_refl]. }
  assert (Hm : truthy_opt method_filter = true ->
               Forall (fun ep => keep ep = true) filtered).
  { subst filtered. intros ->. apply Forall_forall. intros ep Hin.
    now apply filter_In in Hin. }
  assert (Hdone : forall r', Subseq r' filtered ->
            Subseq r' endpoints /\
            (truthy_opt method_filter = true ->
             Forall (fun ep => keep ep = true) r')).
  { intros r' Hr'. split.
    - eapply SubseqFacts.Subseq_trans; eassumption.
    - intro Ht. apply Forall_forall. intros ep Hin.
      apply (SubseqFacts.Subseq_In Hr') in Hin.
      specialize (Hm Ht). rewrite Forall_forall in Hm. now apply Hm. }
  clearbody filtered.
  destruct (filter_step re_compile QueryFilter query_filter
                        (query_cond re_search) filtered)
    as [o1 [f1|d1]] eqn:E1; apply filter_step_subseq in E1.
  2:{ intro H. injection H as _ ->. subst r.
      apply Hdone, SubseqFacts.Subseq_nil_l. }
  destruct (filter_step re_compile PathFilter path_filter
                        (path_cond re_search) f1)
    as [o2 [f2|d2]] eqn:E2; apply filter_step_subseq in E2.
  2:{ intro H. injection H as _ ->. subst r.
      apply Hdone, SubseqFacts.Subseq_nil_l. }
  destruct (filter_step re_compile NameFilter name_filter
                        (name_cond re_search) f2)
    as [o3 [f3|d3]] eqn:E3; apply filter_step_subseq in E3.
  2:{ intro H. injection H as _ ->. subst r.
      apply Hdone, SubseqFacts.Subseq_nil_l. }
  intro H. injection H as _ <-. apply Hdone.
  eapply SubseqFacts.Subseq_trans; [exact E3|].
  eapply SubseqFacts.Subseq_trans; eassumption.
Qed.

Lemma filter_endpoints_keeps_order_witness :
  ToyRe.filter_endpoints
    ["GET db/module/list [list modules]"; "GET ping"; "POST db/module/save"]
    (Some "module") None (Some "get") None
  = ([], Returned ["GET db/module/list [list modules]"]) /\
  Subseq ["GET db/module/list [list modules]"]
         ["GET db/module/list [list modules]"; "GET ping"; "POST db/module/save"] /\
  (truthy_opt (Some "get") = true ->
   Forall (fun ep =>
             startswith ep (ToyRe.str_upper (or_empty (Some "get")) ++ " ") = true)
          ["GET db/module/list [list modules]"]).
Proof.
  split; [reflexivity|].
  apply (@filter_endpoints_keeps_order
           ToyRe.Pattern ToyRe.re_compile ToyRe.re_search ToyRe.str_upper
           ["GET db/module/list [list modules]"; "GET ping"; "POST db/module/save"]
           (Some "module") None (Some "get") None []).
  reflexivity.
Defined.

(** ** More on pagination *)

Module WindowFacts.

Lemma firstn_min_length (A : Type) (n : nat) (l : list A) :
  firstn (Nat.min n (List.length l)) l = firstn n l.
Proof.
  destruct (Nat.le_gt_cases n (List.length l)) as [H|H].
  - now rewrite Nat.min_l.
  - rewrite Nat.min_r by lia. rewrite firstn_all. symmetry.
    apply firstn_all2. lia.
Qed.

Lemma firstn_add (A : Type) (a b : nat) :
  forall l : list A, firstn (a + b) l = firstn a l ++ firstn b (skipn a l).
Proof.
  induction a as [|a IH]; intro l; [reflexivity|].
  destruct l as [|x l]; cbn [Nat.add firstn skipn app].
  - now rewrite firstn_nil.
  - now rewrite IH.
Qed.

(** Consecutive chunks of [n] entries make up a prefix. *)
Lemma concat_chunks (A : Type) (n : nat) (l : list A) (k : nat) :
  concat (map (fun i => firstn n (skipn (i * n) l)) (seq 0 k))
  = firstn (k * n) l.
Proof.
  induction k as [|k IH]; [reflexivity|].
  rewrite seq_S, map_app, concat_app, IH. cbn [Nat.add map concat].
  rewrite app_nil_r. rewrite <- firstn_add. f_equal. lia.
Qed.

(** The window of a page that exists. *)
Lemma paginate_window (A : Type) (items : list A) (page page_size : Z) :
  (1 <= page)%Z -> (1 <= page_size)%Z ->
  (page <= page_count items page_size)%Z ->
  _paginate_items items page page_size
  = Returned (firstn (Z.to_nat page_size)
                     (skipn (Z.to_nat ((page - 1) * page_size)) items),
              page_count items page_size,
              Z.of_nat (List.length items)) /\
  ((page - 1) * page_size < Z.of_nat (List.length items))%Z.
Proof.
  intros Hp Hps Hle. unfold page_count in *.
  pose proof (PageFacts.total_pages_is_ceiling
                (Z.of_nat (List.length items)) Hps) as [Hlo Hhi].
  set (tp := ((Z.of_nat (List.length items) + page_size - 1) / page_size)%Z) in *.
  assert (Hmono : ((page - 1) * page_size <= (tp - 1) * page_size)%Z)
    by (clearbody tp; apply Z.mul_le_mono_nonneg_r; lia).
  assert (Hstart : ((page - 1) * page_size < Z.of_nat (List.length items))%Z)
    by (clearbody tp; lia).
  split; [|exact Hstart].
  unfold _paginate_items. fold tp.
  destruct (page_size =? 0)%Z eqn:E0; [apply Z.eqb_eq in E0; lia|].
  destruct (page >? tp)%Z eqn:Egt;
    [rewrite Z.gtb_ltb in Egt; apply Z.ltb_lt in Egt; clearbody tp; lia|].
  do 3 f_equal. clearbody tp. unfold py_slice, slice_bound.
  set (len := Z.of_nat (List.length items)) in *.
  set (start := ((page - 1) * page_size)%Z) in *.
  assert (H0 : (0 <= start)%Z) by (subst start; nia).
  destruct (start <? 0)%Z eqn:Es; [apply Z.ltb_lt in Es; lia|].
  destruct (Z.min (start + page_size) len <? 0)%Z eqn:Ee;
    [apply Z.ltb_lt in Ee; lia|].
  rewrite (Z.min_l start len) by lia.
  rewrite (Z.min_l (Z.min (start + page_size) len) len) by lia.
  rewrite <- (firstn_min_length (Z.to_nat page_size)).
  f_equal. rewrite length_skipn. subst len. lia.
Qed.

End WindowFacts.

(** X11.  For a page that exists ([1 <= page <= total_pages]) the window
    is the [page_size] items after the first [(page - 1) * page_size];
    it is not empty and has at most [page_size] items. *)
Theorem paginate_items_window :
  forall (A : Type) (items : list A) (page page_size : Z),
    (1 <= page)%Z -> (1 <= page_size)%Z ->
    (page <= page_count items page_size)%Z ->
    _paginate_items items page page_size
    = Returned (firstn (Z.to_nat page_size)
                       (skipn (Z.to_nat ((page - 1) * page_size)) items),
                page_count items page_size,
                Z.of_nat (List.length items)) /\
    page_window items page page_size <> [] /\
    (Z.of_nat (List.length (page_window items page page_size)) <= page_size)%Z.
Proof.
  intros A items page page_size Hp Hps Hle.
  destruct (WindowFacts.paginate_window items Hp Hps Hle) as [Heq Hstart].
  split; [exact Heq|]. unfold page_window. rewrite Heq.
  assert (Hlen : List.length (firstn (Z.to_nat page_size)
                    (skipn (Z.to_nat ((page - 1) * page_size)) items))
                 = Nat.min (Z.to_nat page_size)
                     (List.length items - Z.to_nat ((page - 1) * page_size))).
  { now rewrite length_firstn, length_skipn. }
  assert (H0 : (0 <= (page - 1) * page_size)%Z) by nia.
  set (start := ((page - 1) * page_size)%Z) in *. clearbody start.
  split.
  - intro H. rewrite H in Hlen. cbn [List.length] in Hlen. lia.
  - rewrite Hlen. lia.
Qed.

Lemma paginate_items_window_witness :
  (1 <= 3)%Z /\ (1 <= 10)%Z /\ (3 <= page_count (seq 1 25) 10)%Z /\
  _paginate_items (seq 1 25) 3 10
  = Returned (firstn (Z.to_nat 10) (skipn (Z.to_nat ((3 - 1) * 10)) (seq 1 25)),
              page_count (seq 1 25) 10,
              Z.of_nat (List.length (seq 1 25))) /\
  page_window (seq 1 25) 3 10 <> [] /\
  (Z.of_nat (List.length (page_window (seq 1 25) 3 10)) <= 10)%Z.
Proof.
  split; [lia|]. split; [lia|]. split; [vm_compute; discriminate|].
  apply (@paginate_items_window nat (seq 1 25) 3 10); [lia | lia |].
  vm_compute. discriminate.
Defined.

(** X12.  The windows of the pages [1 .. total_pages], one after the
    other, are the whole list: paging loses and repeats nothing. *)
Theorem paginate_items_pages_cover :
  forall (A : Type) (items : list A) (page_size : Z),
    (1 <= page_size)%Z ->
    concat (map (fun p => page_window items (Z.of_nat p) page_size)
                (seq 1 (Z.to_nat (page_count items page_size))))
    = items.
Proof.
  intros A items page_size Hps.
  pose proof (PageFacts.total_pages_is_ceiling
                (Z.of_nat (List.length items)) Hps) as [Hlo Hhi].
  fold (page_count items page_size) in Hlo, Hhi.
  set (tp := page_count items page_size) in *.
  rewrite <- seq_shift, map_map.
  rewrite (map_ext_in _
             (fun i => firstn (Z.to_nat page_size)
                              (skipn (i * Z.to_nat page_size) items))).
  - rewrite WindowFacts.concat_chunks. apply firstn_all2. nia.
  - intros i Hi. apply in_seq in Hi.
    assert (Hp : (1 <= Z.of_nat (S i))%Z) by lia.
    assert (Hle : (Z.of_nat (S i) <= page_count items page_size)%Z)
      by (fold tp; lia).
    destruct (WindowFacts.paginate_window items Hp Hps Hle) as [Heq _].
    unfold page_window. rewrite Heq. do 2 f_equal. nia.
Qed.

Lemma paginate_items_pages_cover_witness :
  (1 <= 10)%Z /\
  concat (map (fun p => page_window (seq 1 25) (Z.of_nat p) 10)
              (seq 1 (Z.to_nat (page_count (seq 1 25) 10))))
  = seq 1 25.
Proof.
  split; [lia|].
  apply (@paginate_items_pages_cover nat (seq 1 25) 10). lia.
Defined.

(** ** The search client: never more than [limit] results *)

Module LimitFacts.


Section Limited.

Variables Item Other : Type.
Variable slice_other : Other -> Z -> Completion Other.




End Limited.

End LimitFacts.



(** ** Keyword matching in the class explorer *)

Module MatchFacts.

Lemma startswith_refl s : startswith s s = true.
Proof.
  induction s as [|c s IH]; [reflexivity|].
  cbn [startswith]. now rewrite Ascii.eqb_refl, IH.
Qed.

Lemma contains_sub_refl s : contains_sub s s = true.
Proof. destruct s; cbn [contains_sub]; now rewrite startswith_refl. Qed.

Lemma existsb_impl (A : Type) (p q : A -> bool) (l : list A) :
  (forall a, p a = true -> q a = true) ->
  existsb p l = true -> existsb q l = true.
Proof.
  intros H Hex. apply existsb_exists in Hex as (a & Ha & Hp).
  apply existsb_exists. exists a. auto.
Qed.

Lemma forallb_impl (A : Type) (p q : A -> bool) (l : list A) :
  (forall a, p a = true -> q a = true) ->
  forallb p l = true -> forallb q l = true.
Proof.
  intros H Hall. rewrite forallb_forall in *. auto.
Qed.

Lemma forallb_existsb (A : Type) (p : A -> bool) (l : list A) :
  l <> [] -> forallb p l = true -> existsb p l = true.
Proof.
  destruct l as [|a l]; [congruence|]. cbn. intros _ H.
  apply andb_prop in H as [-> _]. reflexivity.
Qed.

Lemma Subseq_filter_impl (A : Type) (p q : A -> bool) (l : list A) :
  (forall a, p a = true -> q a = true) ->
  Subseq (filter p l) (filter q l).
Proof.
  intro H. induction l as [|a l IH]; cbn [filter]; [constructor|].
  destruct (p a) eqn:Hp.
  - rewrite (H a Hp). now constructor.
  - destruct (q a); [constructor|]; exact IH.
Qed.

Lemma forallb_id_map (A : Type) (f : A -> bool) (l : list A) :
  forallb (fun b => b) (map f l) = forallb f l.
Proof. induction l as [|a l IH]; cbn; [reflexivity | now rewrite IH]. Qed.

Lemma existsb_id_map (A : Type) (f : A -> bool) (l : list A) :
  existsb (fun b => b) (map f l) = existsb f l.
Proof. induction l as [|a l IH]; cbn; [reflexivity | now rewrite IH]. Qed.

End MatchFacts.

Section MatchMore.

Variable str_lower : string -> string.
Variable str_split : string -> list string.
Variable re_search_text : string -> string -> bool -> option bool.

Lemma keyword_matches_exact case_sensitive kw text :
  keyword_matches str_lower case_sensitive true kw text = true ->
  keyword_matches str_lower case_sensitive false kw text = true.
Proof.
  unfold keyword_matches. destruct case_sensitive; intro H;
    apply String.eqb_eq in H; rewrite H; apply MatchFacts.contains_sub_refl.
Qed.

Lemma match_pattern_exact search_logic text pattern case_sensitive :
  _match_pattern str_lower str_split re_search_text search_logic text pattern
                 case_sensitive true false = true ->
  _match_pattern str_lower str_split re_search_text search_logic text pattern
                 case_sensitive false false = true.
Proof.
  unfold _match_pattern. destruct (negb (truthy text)); [discriminate|].
  destruct (1 <? List.length (str_split pattern))%nat.
  - rewrite !MatchFacts.forallb_id_map, !MatchFacts.existsb_id_map.
    assert (Hall : forallb (fun kw => keyword_matches str_lower case_sensitive true kw text)
                           (str_split pattern) = true ->
                   forallb (fun kw => keyword_matches str_lower case_sensitive false kw text)
                           (str_split pattern) = true)
      by (apply MatchFacts.forallb_impl; intros kw; apply keyword_matches_exact).
    assert (Hex : existsb (fun kw => keyword_matches str_lower case_sensitive true kw text)
                          (str_split pattern) = true ->
                  existsb (fun kw => keyword_matches str_lower case_sensitive false kw text)
                          (str_split pattern) = true)
      by (apply MatchFacts.existsb_impl; intros kw; apply keyword_matches_exact).
    destruct search_logic as [logic|]; [destruct (logic =? "and")%string|]; assumption.
  - apply keyword_matches_exact.
Qed.

Lemma match_pattern_and search_logic text pattern case_sensitive exact is_regex :
  _match_pattern str_lower str_split re_search_text (Some "and") text pattern
                 case_sensitive exact is_regex = true ->
  _match_pattern str_lower str_split re_search_text search_logic text pattern
                 case_sensitive exact is_regex = true.
Proof.
  unfold _match_pattern. destruct (negb (truthy text)); [discriminate|].
  destruct is_regex; [exact (fun H => H)|].
  destruct (1 <? List.length (str_split pattern))%nat eqn:E; [|exact (fun H => H)].
  cbn [String.eqb Ascii.eqb Bool.eqb andb].
  change ("and" =? "and")%string with true. cbn iota.
  intro H.
  assert (Hex : existsb (fun b => b)
                        (map (fun kw => keyword_matches str_lower case_sensitive exact kw text)
                             (str_split pattern)) = true).
  { apply MatchFacts.forallb_existsb; [|exact H].
    apply Nat.ltb_lt in E. destruct (str_split pattern); [cbn in E; lia | discriminate]. }
  destruct search_logic as [logic|]; [destruct (logic =? "and")%string|]; assumption.
Qed.

End MatchMore.

(** X14.  Without a regular expression, asking for an exact match never
    matches more: a text that matches exactly also matches as a
    substring search, so the exact selection keeps names of the
    substring selection. *)
Theorem match_pattern_exact_is_stricter :
  forall (str_lower : string -> string) (str_split : string -> list string)
         (re_search_text : string -> string -> bool -> option bool)
         (search_logic : option string) (pattern : string)
         (exclude_pattern : option string) (case_sensitive : bool),
    (forall text : string,
        implb (_match_pattern str_lower str_split re_search_text search_logic text pattern
                              case_sensitive true false)
              (_match_pattern str_lower str_split re_search_text search_logic text pattern
                              case_sensitive false false) = true) /\
    (forall names : list string,
        Subseq (select_names str_lower str_split re_search_text search_logic names pattern
                             exclude_pattern case_sensitive true false)
               (select_names str_lower str_split re_search_text search_logic names pattern
                             exclude_pattern case_sensitive false false)).
Proof.
  intros str_lower str_split re_search_text search_logic pattern exclude_pattern
         case_sensitive.
  split.
  - intro text.
    destruct (_match_pattern str_lower str_split re_search_text search_logic text pattern
                             case_sensitive true false) eqn:E; [|reflexivity].
    cbn [implb]. now apply match_pattern_exact.
  - intro names. unfold select_names. apply MatchFacts.Subseq_filter_impl.
    intros a H. apply andb_prop in H as [Hm He].
    now rewrite (match_pattern_exact _ _ _ _ _ _ _ Hm), He.
Qed.

(** X15.  With several keywords the logic ["and"] never matches more
    than any other setting: a text that matches under ["and"] matches
    under every logic, so the ["and"] selection keeps names of the
    other selection. *)
Theorem match_pattern_and_is_stricter :
  forall (str_lower : string -> string) (str_split : string -> list string)
         (re_search_text : string -> string -> bool -> option bool)
         (search_logic : option string) (pattern : string)
         (exclude_pattern : option string) (case_sensitive exact is_regex : bool),
    (forall text : string,
        implb (_match_pattern str_lower str_split re_search_text (Some "and") text pattern
                              case_sensitive exact is_regex)
              (_match_pattern str_lower str_split re_search_text search_logic text pattern
                              case_sensitive exact is_regex) = true) /\
    (forall names : list string,
        Subseq (select_names str_lower str_split re_search_text (Some "and") names pattern
                             exclude_pattern case_sensitive exact is_regex)
               (select_names str_lower str_split re_search_text search_logic names pattern
                             exclude_pattern case_sensitive exact is_regex)).
Proof.
  intros str_lower str_split re_search_text search_logic pattern exclude_pattern
         case_sensitive exact is_regex.
  split.
  - intro text.
    destruct (_match_pattern str_lower str_split re_search_text (Some "and") text pattern
                             case_sensitive exact is_regex) eqn:E; [|reflexivity].
    cbn [implb]. now apply match_pattern_and.
  - intro names. unfold select_names. apply MatchFacts.Subseq_filter_impl.
    intros a H. apply andb_prop in H as [Hm He].
    now rewrite (match_pattern_and _ _ _ _ _ _ _ _ _ Hm), He.
Qed.

(** ** The lookup and the listing agree *)

Module AgreeFacts.

Lemma code_selects_listed t e : code_selects t e = true -> listed e = true.
Proof.
  unfold code_selects, has_method_and_id, listed. intro H.
  apply andb_prop in H as [H _]. apply andb_prop in H as [H Hp].
  apply andb_prop in H as [Hm _]. now rewrite Hm, Hp.
Qed.

Lemma path_matches_refl p : path_matches p p = true.
Proof. unfold path_matches. now rewrite String.eqb_refl. Qed.

Lemma code_selects_own_path e :
  has_method_and_id (fst e) = true -> truthy (snd e) = true ->
  normal (snd e) -> code_selects (snd e) e = true.
Proof.
  intros Hm Hp Hn. unfold code_selects.
  rewrite Hm, Hp, (PathFacts.normalize_path_fixed Hn).
  apply path_matches_refl.
Qed.

End AgreeFacts.

(** X16.  Every endpoint that the lookup returns is in the listing: the
    line made of its method, its path and its name is one of the lines
    of [extract_api_endpoints] on the same tree. *)
Theorem found_endpoints_are_listed :
  forall (api_children : list Node) (target_path : string)
         (matches : list Match) (lines : list string),
    find_api_id_by_path (ApiChildren api_children) target_path = Returned matches ->
    extract_api_endpoints (ApiChildren api_children) = Returned lines ->
    Forall (fun m =>
              exists current_path,
                In (format_endpoint (match_method m) (match_path m)
                                    (match_name m) current_path)
                   lines)
           matches.
Proof.
  intros api_children target_path matches lines Hfind Hext.
  cbn [find_api_id_by_path] in Hfind. rewrite TreeFacts.find_forest in Hfind.
  injection Hfind as <-.
  cbn [extract_api_endpoints] in Hext. injection Hext as <-.
  apply Forall_forall. intros m Hm.
  apply in_map_iff in Hm as (e & <- & He).
  apply filter_In in He as [Hin Hsel].
  exists (path (fst e)).
  apply (Permutation_in _ (SortFacts.py_sorted_perm _)).
  rewrite TreeFacts.traverse_forest_preorder.
  apply in_map_iff. exists e. split.
  - unfold to_line, to_match. reflexivity.
  - apply filter_In. split; [exact Hin|].
    now apply (AgreeFacts.code_selects_listed target_path).
Qed.

Lemma found_endpoints_are_listed_witness :
  find_api_id_by_path (ApiChildren Samples.db_tree) "db/module/list/extra"
  = Returned [mkMatch "e1" "db/module/list" "GET" "list modules" (Some "g1")] /\
  extract_api_endpoints (ApiChildren Samples.db_tree)
  = Returned ["GET db/module/list [list modules]"; "GET ping";
              "POST db/module/save"] /\
  Forall (fun m =>
            exists current_path,
              In (format_endpoint (match_method m) (match_path m)
                                  (match_name m) current_path)
                 ["GET db/module/list [list modules]"; "GET ping";
                  "POST db/module/save"])
         [mkMatch "e1" "db/module/list" "GET" "list modules" (Some "g1")].
Proof.
  split; [reflexivity|]. split; [reflexivity|].
  apply (@found_endpoints_are_listed Samples.db_tree "db/module/list/extra");
    reflexivity.
Defined.

(** X17.  Looking up the full path of an endpoint finds that endpoint:
    for every node of the tree with a method, an id and a non-empty
    full path, the lookup of that path, with or without a leading
    slash, returns the node's record. *)
Theorem lookup_finds_own_path :
  forall (api_children : list Node) (e : NodeInfo * string),
    In e (preorder_forest api_children) ->
    has_method_and_id (fst e) = true ->
    truthy (snd e) = true ->
    exists matches matches',
      find_api_id_by_path (ApiChildren api_children) (snd e) = Returned matches /\
      In (to_match e) matches /\
      find_api_id_by_path (ApiChildren api_children) (String slash (snd e))
      = Returned matches' /\
      In (to_match e) matches'.
Proof.
  intros api_children e Hin Hm Hp.
  assert (Hn : normal (snd e)).
  { pose proof (TargetFacts.preorder_forest_paths_normal api_children) as H.
    rewrite Forall_forall in H. now apply H. }
  assert (Hsel : In (to_match e)
                    (map to_match (filter (code_selects (snd e))
                                          (preorder_forest api_children)))).
  { apply in_map, filter_In. split; [exact Hin|].
    now apply AgreeFacts.code_selects_own_path. }
  cbn [find_api_id_by_path]. rewrite !TreeFacts.find_forest.
  rewrite TreeFacts.filter_code_selects_leading_slash.
  eexists _, _. repeat split; try reflexivity; exact Hsel.
Qed.

Lemma lookup_finds_own_path_witness :
  In (mkNodeInfo (Some "e2") "save" "save" (Some "POST") (Some "g1"),
      "db/module/save")
     (preorder_forest Samples.db_tree) /\
  exists matches matches',
    find_api_id_by_path (ApiChildren Samples.db_tree) "db/module/save"
    = Returned matches /\
    In (mkMatch "e2" "db/module/save" "POST" "save" (Some "g1")) matches /\
    find_api_id_by_path (ApiChildren Samples.db_tree) "/db/module/save"
    = Returned matches' /\
    In (mkMatch "e2" "db/module/save" "POST" "save" (Some "g1")) matches'.
Proof.
  split; [cbn; tauto|].
  apply (@lookup_finds_own_path
           Samples.db_tree
           (mkNodeInfo (Some "e2") "save" "save" (Some "POST") (Some "g1"),
            "db/module/save")); [cbn; tauto | reflexivity | reflexivity].
Defined.

(** ** [filter_endpoints] when every pattern compiles *)

Section FilterExact.

Variable Pattern : Type.
Variable re_compile : string -> Compile Pattern.
Variable re_search : Pattern -> string -> bool.
Variable str_upper : string -> string.

Lemma filter_filter (A : Type) (p q : A -> bool) (l : list A) :
  filter p (filter q l) = filter (fun a => q a && p a) l.
Proof.
  induction l as [|a l IH]; cbn [filter]; [reflexivity|].
  destruct (q a); cbn [filter andb]; [destruct (p a)|]; now rewrite IH.
Qed.

Lemma split_1_has_space ep :
  has_space ep = true -> split_1 ep = Returned (rest_of ep).
Proof.
  unfold has_space, split_1, rest_of.
  destruct (after_first_space ep); [reflexivity | discriminate].
Qed.

Definition cond_of (f : FilterField) : Pattern -> string -> Completion bool :=
  match f with
  | QueryFilter => query_cond re_search
  | PathFilter => path_cond re_search
  | NameFilter => name_cond re_search
  end.

Lemma cond_of_has_space f pat ep :
  has_space ep = true ->
  cond_of f pat ep = Returned (field_test re_search f pat ep).
Proof.
  intro H. destruct f; cbn [cond_of field_test];
    unfold query_cond, path_cond, name_cond;
    try rewrite (split_1_has_space _ H); reflexivity.
Qed.

Lemma comprehension_filter f pat l :
  forallb has_space l = true ->
  comprehension (cond_of f pat) l
  = Returned (filter (field_test re_search f pat) l).
Proof.
  induction l as [|ep l IH]; cbn [forallb comprehension filter]; intro H;
    [reflexivity|].
  apply andb_prop in H as [Hep Hl].
  rewrite (cond_of_has_space f pat _ Hep), (IH Hl). reflexivity.
Qed.

(** A filter block whose pattern compiles keeps the entries that pass
    and prints nothing. *)
Lemma filter_step_passes f pattern filtered :
  forallb has_space filtered = true ->
  uncompiled re_compile pattern = false ->
  filter_step re_compile f pattern (cond_of f) filtered
  = ([], inl (filter (passes re_compile re_search f pattern) filtered)).
Proof.
  intros Hsp Hm. unfold filter_step, passes, uncompiled, malformed, escapes in *.
  destruct (truthy_opt pattern); cbn [andb] in Hm.
  - destruct (re_compile (or_empty pattern)) as [pat|msg|e];
      [|discriminate|discriminate].
    now rewrite (comprehension_filter f pat _ Hsp).
  - f_equal. f_equal. symmetry. apply SegmentFacts.filter_all.
    apply forallb_forall. reflexivity.
Qed.

Lemma filter_endpoints_passes_all endpoints path_filter name_filter
      method_filter query_filter :
  forallb has_space endpoints = true ->
  uncompiled re_compile query_filter || uncompiled re_compile path_filter
  || uncompiled re_compile name_filter = false ->
  filter_endpoints re_compile re_search str_upper endpoints
                   path_filter name_filter method_filter query_filter
  = ([], Returned (filter (passes_all re_compile re_search str_upper
                                      path_filter name_filter method_filter
                                      query_filter)
                          endpoints)).
Proof.
  intros Hsp Hm.
  apply orb_false_elim in Hm as [Hm Hn]. apply orb_false_elim in Hm as [Hq Hp].
  unfold filter_endpoints.
  set (filtered := if truthy_opt method_filter
                   then filter (fun ep => startswith ep
                                  (str_upper (or_empty method_filter) ++ " "))
                               endpoints
                   else endpoints).
  assert (H0 : filtered = filter (passes_method str_upper method_filter) endpoints).
  { subst filtered. unfold passes_method. destruct (truthy_opt method_filter);
      [reflexivity|]. symmetry. apply SegmentFacts.filter_all.
    apply forallb_forall. reflexivity. }
  clearbody filtered. subst filtered.
  change (query_cond re_search) with (cond_of QueryFilter).
  change (path_cond re_search) with (cond_of PathFilter).
  change (name_cond re_search) with (cond_of NameFilter).
  rewrite filter_step_passes; [|now apply forallb_filter | exact Hq].
  rewrite filter_step_passes;
    [|now apply forallb_filter, forallb_filter | exact Hp].
  rewrite filter_step_passes;
    [|now apply forallb_filter, forallb_filter, forallb_filter | exact Hn].
  cbn [app]. rewrite !filter_filter. do 2 f_equal.
  apply filter_ext. intro ep. unfold passes_all.
  now rewrite !andb_assoc.
Qed.

Lemma filter_idem (A : Type) (p : A -> bool) (l : list A) :
  filter p (filter p l) = filter p l.
Proof.
  rewrite filter_filter. apply filter_ext. intro a. now destruct (p a).
Qed.

End FilterExact.

(** X18.  When every entry has a space and every supplied pattern
    compiles, [filter_endpoints] prints nothing and returns exactly the
    entries that pass the method, query, path and name filters, in
    their order; an absent or empty filter lets every entry pass. *)
Theorem filter_endpoints_returns_passing :
  forall (Pattern : Type) (re_compile : string -> Compile Pattern)
         (re_search : Pattern -> string -> bool) (str_upper : string -> string)
         (endpoints : list string)
         (path_filter name_filter method_filter query_filter : option string),
    forallb has_space endpoints = true ->
    uncompiled re_compile query_filter || uncompiled re_compile path_filter
    || uncompiled re_compile name_filter = false ->
    filter_endpoints re_compile re_search str_upper endpoints
                     path_filter name_filter method_filter query_filter
    = ([], Returned (filter (passes_all re_compile re_search str_upper
                                        path_filter name_filter method_filter
                                        query_filter)
                            endpoints)).
Proof.
  intros. now apply filter_endpoints_passes_all.
Qed.

Lemma filter_endpoints_returns_passing_witness :
  forallb has_space
          ["GET db/module/list [list modules]"; "GET ping"; "POST db/module/save"]
  = true /\
  uncompiled ToyRe.re_compile None || uncompiled ToyRe.re_compile (Some "module")
  || uncompiled ToyRe.re_compile None = false /\
  ToyRe.filter_endpoints
    ["GET db/module/list [list modules]"; "GET ping"; "POST db/module/save"]
    (Some "module") None (Some "get") None
  = ([], Returned
           (filter (passes_all ToyRe.re_compile ToyRe.re_search ToyRe.str_upper
                               (Some "module") None (Some "get") None)
                   ["GET db/module/list [list modules]"; "GET ping";
                    "POST db/module/save"])).
Proof.
  split; [reflexivity|]. split; [reflexivity|].
  apply (@filter_endpoints_returns_passing
           ToyRe.Pattern ToyRe.re_compile ToyRe.re_search ToyRe.str_upper
           ["GET db/module/list [list modules]"; "GET ping"; "POST db/module/save"]
           (Some "module") None (Some "get") None); reflexivity.
Defined.

(** X19.  Filtering is idempotent: when every entry has a space and
    every supplied pattern compiles, filtering the returned list again
    with the same filters returns it unchanged. *)
Theorem filter_endpoints_idempotent :
  forall (Pattern : Type) (re_compile : string -> Compile Pattern)
         (re_search : Pattern -> string -> bool) (str_upper : string -> string)
         (endpoints : list string)
         (path_filter name_filter method_filter query_filter : option string),
    forallb has_space endpoints = true ->
    uncompiled re_compile query_filter || uncompiled re_compile path_filter
    || uncompiled re_compile name_filter = false ->
    exists filtered : list string,
      filter_endpoints re_compile re_search str_upper endpoints
                       path_filter name_filter method_filter query_filter
      = ([], Returned filtered) /\
      filter_endpoints re_compile re_search str_upper filtered
                       path_filter name_filter method_filter query_filter
      = ([], Returned filtered).
Proof.
  intros Pattern re_compile re_search str_upper endpoints
         path_filter name_filter method_filter query_filter Hsp Hm.
  eexists. split; [now apply filter_endpoints_passes_all|].
  rewrite filter_endpoints_passes_all; [|now apply forallb_filter | exact Hm].
  now rewrite filter_idem.
Qed.

Lemma filter_endpoints_idempotent_witness :
  forallb has_space
          ["GET db/module/list [list modules]"; "GET ping"; "POST db/module/save"]
  = true /\
  uncompiled ToyRe.re_compile None || uncompiled ToyRe.re_compile (Some "module")
  || uncompiled ToyRe.re_compile None = false /\
  exists filtered : list string,
    ToyRe.filter_endpoints
      ["GET db/module/list [list modules]"; "GET ping"; "POST db/module/save"]
      (Some "module") None (Some "get") None
    = ([], Returned filtered) /\
    ToyRe.filter_endpoints filtered (Some "module") None (Some "get") None
    = ([], Returned filtered).
Proof.
  split; [reflexivity|]. split; [reflexivity|].
  apply (@filter_endpoints_idempotent
           ToyRe.Pattern ToyRe.re_compile ToyRe.re_search ToyRe.str_upper
           ["GET db/module/list [list modules]"; "GET ping"; "POST db/module/save"]
           (Some "module") None (Some "get") None); reflexivity.
Defined.
